(** * Scrolling capture: the capture loop and the stitcher

    A shallow embedding of [app/capture/scrolling.py] (class
    [ScrollingCapture]) and of the two functions it imports from
    [capture/window.py], [get_window_rect] and [bring_window_to_front],
    together with the properties the specification states about them.

    Python integers are [Z].  A PIL image is a record of its size and
    its pixel rows; [tobytes] is the row-major RGB buffer.  Fallible
    calls return a [result]; the capture method, which mutates
    [self.images] and talks to the operating system, runs in a small
    state-and-exception monad that also records the host calls it
    makes. *)

From Stdlib Require Import ZArith List Lia Bool Sorted.
From Stdlib Require Import Strings.Byte.
Import ListNotations.
Open Scope Z_scope.

(** ** Exceptions and fallible results *)

Inductive exn : Type :=
| ValueError            (* PIL: bad size, bad box, wrong amount of data *)
| IndexError            (* [self.images[0]] on an empty list *)
| OSError (code : Z)    (* anything a host call may throw *)
| LoopFuel.             (* model only: the loop counter ran out *)

Inductive result (A : Type) : Type :=
| Ok (a : A)
| Raise (e : exn).
Arguments Ok {A} a.
Arguments Raise {A} e.

Definition rbind {A B} (r : result A) (k : A -> result B) : result B :=
  match r with
  | Ok a => k a
  | Raise e => Raise e
  end.

Declare Scope res_scope.
Delimit Scope res_scope with res.
Notation "x <- r ;; k" := (rbind r (fun x => k))
  (at level 61, r at next level, right associativity) : res_scope.

(** ** The imaging library, as far as the code uses it *)

Module PIL.

Definition pixel : Type := (byte * byte * byte)%type.
Definition black : pixel := (x00, x00, x00).

Record Image : Type := mkImage {
  width  : Z;
  height : Z;
  rows   : list (list pixel)   (* [height] rows of [width] pixels *)
}.

(** [l, l+1, ..., l+n-1] *)
Fixpoint zseq (l : Z) (n : nat) : list Z :=
  match n with
  | O => []
  | S n' => l :: zseq (l + 1) n'
  end.

Definition build (w h : Z) (f : Z -> Z -> pixel) : Image :=
  {| width := w;
     height := h;
     rows := map (fun y => map (fun x => f x y) (zseq 0 (Z.to_nat w)))
                 (zseq 0 (Z.to_nat h)) |}.

(** Pixel at column [x], row [y]; black outside the image, as PIL fills
    the part of a crop box that leaves the source. *)
Definition getpixel (img : Image) (x y : Z) : pixel :=
  if (0 <=? x) && (x <? width img) && (0 <=? y) && (y <? height img)
  then nth (Z.to_nat x) (nth (Z.to_nat y) (rows img) []) black
  else black.

Definition pixel_bytes (p : pixel) : list byte :=
  let '(r, g, b) := p in [r; g; b].

(** [img.tobytes()] for mode RGB: rows top to bottom, 3 bytes a pixel. *)
Definition tobytes (img : Image) : list byte :=
  flat_map (flat_map pixel_bytes) (rows img).

Fixpoint pixels_of_bytes (n : nat) (data : list byte) : list pixel :=
  match n, data with
  | S n', r :: g :: b :: rest => (r, g, b) :: pixels_of_bytes n' rest
  | _, _ => []
  end.

Fixpoint rows_of_bytes (w : nat) (h : nat) (data : list byte)
  : list (list pixel) :=
  match h with
  | O => []
  | S h' => pixels_of_bytes w data
            :: rows_of_bytes w h' (skipn (3 * w) data)
  end.

(** [Image.frombytes('RGB', (w, h), data)]: the raw decoder rejects a
    buffer that is not exactly [3*w*h] bytes. *)
Definition frombytes (size : Z * Z) (data : list byte) : result Image :=
  let '(w, h) := size in
  if (w <? 0) || (h <? 0) then Raise ValueError
  else if negb (Z.of_nat (length data) =? 3 * w * h) then Raise ValueError
  else Ok {| width := w; height := h;
             rows := rows_of_bytes (Z.to_nat w) (Z.to_nat h) data |}.

(** [Image.new('RGB', (w, h))]: a black image. *)
Definition new (size : Z * Z) : result Image :=
  let '(w, h) := size in
  if (w <? 0) || (h <? 0) then Raise ValueError
  else Ok (build w h (fun _ _ => black)).

(** [img.crop((x0, upper, x1, lower))]: the box may leave the image;
    a box with its right edge left of its left edge, or its lower edge
    above its upper edge, is rejected. *)
Definition crop (img : Image) (box : Z * Z * Z * Z) : result Image :=
  let '(x0, upper, x1, lower) := box in
  if x1 <? x0 then Raise ValueError
  else if lower <? upper then Raise ValueError
  else Ok (build (x1 - x0) (lower - upper)
                 (fun x y => getpixel img (x0 + x) (upper + y))).

(** [dst.paste(src, (ox, oy))]: [src] overwrites the part of [dst] it
    covers; [dst] keeps its size. *)
Definition paste (dst src : Image) (at_ : Z * Z) : Image :=
  let '(ox, oy) := at_ in
  build (width dst) (height dst)
        (fun x y =>
           if (ox <=? x) && (x <? ox + width src)
              && (oy <=? y) && (y <? oy + height src)
           then getpixel src (x - ox) (y - oy)
           else getpixel dst x y).

(** [img1.size != img2.size] *)
Definition size_eqb (a b : Image) : bool :=
  (width a =? width b) && (height a =? height b).

(** Every image PIL hands out has a non-negative size ... *)
Definition valid_size (img : Image) : Prop :=
  0 <= width img /\ 0 <= height img.

(** ... and pixel rows of that size. *)
Definition wf (img : Image) : Prop :=
  valid_size img /\
  length (rows img) = Z.to_nat (height img) /\
  Forall (fun r => length r = Z.to_nat (width img)) (rows img).

End PIL.
Import PIL.

(** ** numpy, as far as [_images_match] uses it *)

(** [np.sum(arr1 == arr2)] on two arrays of one shape: the number of
    positions (channel bytes, not pixels) that hold the same value. *)
Fixpoint count_equal (a b : list byte) : Z :=
  match a, b with
  | x :: a', y :: b' => (if Byte.eqb x y then 1 else 0) + count_equal a' b'
  | _, _ => 0
  end.

(** [matching / size >= 0.95] on float64.  With [size = 0] numpy yields
    nan and the test is false.  Otherwise the quotient is the correctly
    rounded [matching/size]; a ratio below 19/20 is below it by at least
    [1/(20*size)], far more than the rounding error of either side for
    any array that fits in memory, so the test is the integer comparison
    [19*size <= 20*matching]. *)
Definition meets_threshold (matching size : Z) : bool :=
  (0 <? size) && (19 * size <=? 20 * matching).

(** ** ScrollingCapture: the pure helpers *)

Definition _images_match (img1 img2 : Image) : bool :=
  if negb (size_eqb img1 img2) then false
  else
    let arr1 := tobytes img1 in
    let arr2 := tobytes img2 in
    meets_threshold (count_equal arr1 arr2) (Z.of_nat (length arr1)).

(** [range(start, stop, step)] for a positive [step]. *)
Definition range_step (start stop step : Z) : list Z :=
  map (fun k => start + step * k)
      (zseq 0 (Z.to_nat ((stop - start + step - 1) / step))).

Definition strip_height : Z := 50.

(** One pass through the body of the [for overlap in range(...)] loop of
    [_find_overlap]: cut the two strips and compare them. *)
Definition strips_match (img1 img2 : Image) (sample_x sample_width : Z)
           (overlap : Z) : result bool :=
  let y1 := height img1 - overlap in
  (strip1 <- crop img1 (sample_x - sample_width / 2, y1,
                        sample_x + sample_width / 2,
                        y1 + strip_height) ;;
   strip2 <- crop img2 (sample_x - sample_width / 2, 0,
                        sample_x + sample_width / 2,
                        strip_height) ;;
   Ok (_images_match strip1 strip2))%res.

(** The loop itself, over the candidates still to try; a match returns
    from the method, running off the end returns 0. *)
Fixpoint scan_overlaps (img1 img2 : Image) (sample_x sample_width : Z)
         (candidates : list Z) : result Z :=
  match candidates with
  | [] => Ok 0
  | overlap :: rest =>
      (matched <- strips_match img1 img2 sample_x sample_width overlap ;;
       if (matched : bool) then Ok overlap
       else scan_overlaps img1 img2 sample_x sample_width rest)%res
  end.

Definition max_overlap (img1 img2 : Image) : Z :=
  Z.min (height img1) (height img2) / 2.
Definition sample_x (img1 : Image) : Z := width img1 / 2.
Definition sample_width (img1 : Image) : Z := Z.min 100 (width img1 / 4).

(** The offsets the scan visits, in the order it visits them. *)
Definition candidates (img1 img2 : Image) : list Z :=
  range_step strip_height (max_overlap img1 img2) 10.

(** [_find_overlap(img1, img2)] with [max_overlap] left at its default
    [None], the only way the class calls it. *)
Definition _find_overlap (img1 img2 : Image) : result Z :=
  scan_overlaps img1 img2 (sample_x img1) (sample_width img1)
                (candidates img1 img2).

(** The [for i in range(1, len(self.images))] loop of [_stitch_images]:
    the parts contributed by the frames after [prev]. *)
Fixpoint stitch_parts (prev : Image) (rest : list Image)
  : result (list Image) :=
  match rest with
  | [] => Ok []
  | curr :: rest' =>
      (overlap <- _find_overlap prev curr ;;
       part <- (if 0 <? overlap
                then crop curr (0, overlap, width curr, height curr)
                else Ok curr) ;;
       parts <- stitch_parts curr rest' ;;
       Ok (part :: parts))%res
  end.

Definition total_height (parts : list Image) : Z :=
  fold_right (fun img acc => height img + acc) 0 parts.

(** The paste loop: each part goes below the previous one. *)
Fixpoint paste_parts (canvas : Image) (y_offset : Z) (parts : list Image)
  : Image :=
  match parts with
  | [] => canvas
  | img :: parts' =>
      paste_parts (paste canvas img (0, y_offset))
                  (y_offset + height img) parts'
  end.

Definition _stitch_images (images : list Image) : result Image :=
  match images with
  | [] => Raise IndexError
  | [only] => Ok only
  | first :: rest =>
      (parts <- stitch_parts first rest ;;
       let stitched_parts := first :: parts in
       canvas <- new (width first, total_height stitched_parts) ;;
       Ok (paste_parts canvas 0 stitched_parts))%res
  end.

(** The overlaps the stitcher obtains from the locator, pair by pair. *)
Fixpoint pair_overlaps (prev : Image) (rest : list Image)
  : result (list Z) :=
  match rest with
  | [] => Ok []
  | curr :: rest' =>
      (overlap <- _find_overlap prev curr ;;
       overlaps <- pair_overlaps curr rest' ;;
       Ok (overlap :: overlaps))%res
  end.

(** Rows contributed by the frames after the first: each frame's height
    less its overlap with the frame before it. *)
Fixpoint contributed (rest : list Image) (overlaps : list Z) : Z :=
  match rest, overlaps with
  | curr :: rest', o :: overlaps' =>
      (height curr - o) + contributed rest' overlaps'
  | _, _ => 0
  end.

(** ** The host: windows, keyboard, clock and screen grabber *)

(** The ctypes [RECT] structure. *)
Record RECT : Type := mkRECT {
  rc_left : Z; rc_top : Z; rc_right : Z; rc_bottom : Z
}.

(** What [sct.grab] returns: a size and the [rgb] buffer. *)
Record ScreenShot : Type := mkShot {
  shot_width : Z; shot_height : Z; rgb : list byte
}.

(** A rectangle as the code passes it around: (left, top, width,
    height), the tuple of [get_window_rect] and the [region] dict. *)
Definition Rect : Type := (Z * Z * Z * Z)%type.

(** The calls the code makes to its surroundings.  Each may throw, and
    each may change the world [W]. *)
Record Host (W : Type) : Type := mkHost {
  SetForegroundWindow : Z -> W -> result unit * W;
  (* hwnd, attribute, rect passed by reference: HRESULT and the rect *)
  DwmGetWindowAttribute : Z -> Z -> RECT -> W -> result (Z * RECT) * W;
  GetWindowRect : Z -> RECT -> W -> result RECT * W;
  (* virtual key, scan code, flags, extra info *)
  keybd_event : Z -> Z -> Z -> Z -> W -> result unit * W;
  (* [time.sleep], in milliseconds *)
  sleep : Z -> W -> W;
  grab : Rect -> W -> result ScreenShot * W
}.
Arguments SetForegroundWindow {W}.
Arguments DwmGetWindowAttribute {W}.
Arguments GetWindowRect {W}.
Arguments keybd_event {W}.
Arguments sleep {W}.
Arguments grab {W}.

(** The record of one run, in call order. *)
Inductive Event : Type :=
| Foreground (hwnd : Z)
| DwmCall (hwnd : Z)
| UserRectCall (hwnd : Z)
| RectQuery (hwnd : Z) (rect : Rect)   (* [get_window_rect] returned *)
| Key (vk flags : Z)
| Sleep (ms : Z)
| Grab (region : Rect)
| Threw (e : exn).                      (* the call just made threw *)

(** The object: [__init__] sets the three attributes. *)
Record ScrollingCapture : Type := mkSelf {
  hwnd : Z;
  images : list Image;
  _scroll_amount : Z
}.

Definition __init__ (hwnd : Z) : ScrollingCapture :=
  {| hwnd := hwnd; images := []; _scroll_amount := 100 |}.

Definition VK_CONTROL : Z := 0x11.
Definition VK_HOME : Z := 0x24.
Definition VK_NEXT : Z := 0x22.
Definition DWMWA_EXTENDED_FRAME_BOUNDS : Z := 9.

(** [current_hash == previous_hash], where [previous_hash] starts as
    [None] and an int never equals [None]. *)
Definition hash_eq (current_hash : Z) (previous_hash : option Z) : bool :=
  match previous_hash with
  | None => false
  | Some h => current_hash =? h
  end.

(** The length of the slice [[:10000]]. *)
Definition prefix_len : nat := Z.to_nat 10000.

Section Capture.

Context {W : Type}.
Variable host : Host W.
(** Python's built-in [hash] on [bytes]: some function of the bytes,
    fixed for the life of the process. *)
Variable hash : list byte -> Z.

Record State : Type := mkState {
  self : ScrollingCapture;
  world : W
}.

(** A computation returns or throws, leaves a state behind either way,
    and lists the events it caused. *)
Definition M (A : Type) : Type := State -> result A * State * list Event.

Definition ret {A} (a : A) : M A := fun s => (Ok a, s, []).

Definition bind {A B} (m : M A) (k : A -> M B) : M B :=
  fun s =>
    match m s with
    | (Ok a, s1, ev1) =>
        let '(r, s2, ev2) := k a s1 in (r, s2, ev1 ++ ev2)
    | (Raise e, s1, ev1) => (Raise e, s1, ev1)
    end.

Definition lift {A} (r : result A) : M A := fun s => (r, s, []).

Definition emit (ev : Event) : M unit := fun s => (Ok tt, s, [ev]).

(** A call into the host: logged, and logged again if it throws. *)
Definition call {A} (ev : Event) (op : W -> result A * W) : M A :=
  fun s =>
    let '(r, w) := op (world s) in
    (r, {| self := self s; world := w |},
     ev :: match r with Ok _ => [] | Raise e => [Threw e] end).

Definition get_self : M ScrollingCapture := fun s => (Ok (self s), s, []).

(** [self.images.append(img)] *)
Definition images_append (img : Image) : M unit :=
  fun s =>
    (Ok tt,
     {| self := {| hwnd := hwnd (self s);
                   images := images (self s) ++ [img];
                   _scroll_amount := _scroll_amount (self s) |};
        world := world s |},
     []).

Declare Scope cap_scope.
Delimit Scope cap_scope with cap.
Notation "x <- c ;; k" := (bind c (fun x => k))
  (at level 61, c at next level, right associativity) : cap_scope.
Notation "c ;; k" := (bind c (fun _ => k))
  (at level 61, right associativity) : cap_scope.
Local Open Scope cap_scope.

Definition time_sleep (ms : Z) : M unit :=
  call (Sleep ms) (fun w => (Ok tt, sleep host ms w)).

(** [window.py] *)
Definition bring_window_to_front (hwnd : Z) : M unit :=
  call (Foreground hwnd) (SetForegroundWindow host hwnd).

Definition get_window_rect (hwnd : Z) : M Rect :=
  let rect := mkRECT 0 0 0 0 in
  answer <- call (DwmCall hwnd)
                 (DwmGetWindowAttribute host hwnd
                    DWMWA_EXTENDED_FRAME_BOUNDS rect) ;;
  let '(hresult, rect) := answer in
  rect <- (if negb (hresult =? 0)
           then call (UserRectCall hwnd) (GetWindowRect host hwnd rect)
           else ret rect) ;;
  let out := (rc_left rect, rc_top rect,
              rc_right rect - rc_left rect,
              rc_bottom rect - rc_top rect) in
  emit (RectQuery hwnd out) ;;
  ret out.

Definition key (vk flags : Z) : M unit :=
  call (Key vk flags) (keybd_event host vk 0 flags 0).

Definition _scroll_to_top : M unit :=
  key VK_CONTROL 0 ;;
  key VK_HOME 0 ;;
  key VK_HOME 2 ;;
  key VK_CONTROL 2.

Definition _scroll_down : M unit :=
  key VK_NEXT 0 ;;
  key VK_NEXT 2.

(** The digest the loop compares: [hash(img.tobytes()[:10000])]. *)
Definition fingerprint (img : Image) : Z :=
  hash (firstn prefix_len (tobytes img)).

(** The [while scroll_count < max_scrolls] loop of [capture].  [rect]
    holds [left, top, width, height] as read before the loop.  [fuel]
    bounds the unfolding; [capture] passes enough of it. *)
Fixpoint capture_loop (fuel : nat) (max_scrolls : Z) (rect : Rect)
         (previous_hash : option Z) (scroll_count : Z) : M unit :=
  if scroll_count <? max_scrolls then
    match fuel with
    | O => lift (Raise LoopFuel)
    | S fuel' =>
        let region := rect in
        screenshot <- call (Grab region) (grab host region) ;;
        img <- lift (frombytes (shot_width screenshot,
                                shot_height screenshot)
                               (rgb screenshot)) ;;
        let current_hash := fingerprint img in
        if hash_eq current_hash previous_hash then
          ret tt                                   (* break *)
        else
          images_append img ;;
          let previous_hash := Some current_hash in
          _scroll_down ;;
          time_sleep 30 ;;
          capture_loop fuel' max_scrolls rect previous_hash
                       (scroll_count + 1)
    end
  else ret tt.

(** [capture(max_scrolls)].  The [mss.mss()] context manager only opens
    and closes the grabber and does not swallow exceptions, so what the
    body throws leaves [capture]. *)
Definition capture (max_scrolls : Z) : M (option Image) :=
  me <- get_self ;;
  bring_window_to_front (hwnd me) ;;
  time_sleep 50 ;;
  rect <- get_window_rect (hwnd me) ;;
  _scroll_to_top ;;
  time_sleep 50 ;;
  capture_loop (Z.to_nat max_scrolls) max_scrolls rect None 0 ;;
  me <- get_self ;;
  match images me with
  | [] => ret None
  | _ => stitched <- lift (_stitch_images (images me)) ;;
         ret (Some stitched)
  end.

End Capture.

Arguments State W : clear implicits.
Arguments M W A : clear implicits.
Arguments mkState {W}.
Arguments self {W}.
Arguments world {W}.
Arguments ret {W A}.
Arguments bind {W A B}.

(** ** A scripted host, to run the code on concrete scenarios *)

Record Sim : Type := mkSim {
  script : list (result ScreenShot);  (* the grabber's answers, in order *)
  bounds : RECT;                      (* where the window is now *)
  drift : Z;                          (* how far a Page Down moves it *)
  keys_before_failure : option nat    (* key events that still succeed *)
}.

Definition sim_key (vk flags : Z) (w : Sim) : result unit * Sim :=
  match keys_before_failure w with
  | Some O => (Raise (OSError 5), w)
  | budget =>
      let moved :=
        if (vk =? VK_NEXT) && (flags =? 0)
        then mkRECT (rc_left (bounds w) + drift w) (rc_top (bounds w))
                    (rc_right (bounds w) + drift w) (rc_bottom (bounds w))
        else bounds w in
      (Ok tt,
       {| script := script w; bounds := moved; drift := drift w;
          keys_before_failure := option_map Nat.pred budget |})
  end.

Definition sim_grab (w : Sim) : result ScreenShot * Sim :=
  match script w with
  | [] => (Raise (OSError 6), w)
  | answer :: rest =>
      (answer,
       {| script := rest; bounds := bounds w; drift := drift w;
          keys_before_failure := keys_before_failure w |})
  end.

Definition sim_host : Host Sim :=
  {| SetForegroundWindow := fun _ w => (Ok tt, w);
     DwmGetWindowAttribute := fun _ _ _ w => (Ok (0, bounds w), w);
     GetWindowRect := fun _ _ w => (Ok (bounds w), w);
     keybd_event := fun vk _ flags _ w => sim_key vk flags w;
     sleep := fun _ w => w;
     grab := fun _ w => sim_grab w |}.

(** A stand-in for Python's [hash] in concrete runs; the theorems hold
    for every [hash]. *)
Definition poly_hash (data : list byte) : Z :=
  fold_left (fun h b => (31 * h + Z.of_N (Byte.to_N b)) mod 2147483647)
            data 7.

Definition byte_of_Z (z : Z) : byte :=
  match Byte.of_N (Z.to_N (z mod 256)) with
  | Some b => b
  | None => x00
  end.

(** A long page whose row [r] is a flat grey of level [r mod 251], and
    the frame that shows its rows [top .. top+h-1]. *)
Definition page_row (r : Z) : pixel :=
  let v := byte_of_Z (r mod 251) in (v, v, v).

Definition view (w h top : Z) : Image :=
  build w h (fun _ y => page_row (top + y)).

Definition shot_of (img : Image) : ScreenShot :=
  mkShot (width img) (height img) (tobytes img).

(** A new object and a 100x300 window at the origin that stays put. *)
Definition sim_start (shots : list (result ScreenShot)) : State Sim :=
  mkState (__init__ 1)
          {| script := shots; bounds := mkRECT 0 0 100 300; drift := 0;
             keys_before_failure := None |}.

(** ** [window.py]: the window under the cursor, captured once *)

(** The ctypes [POINT] structure. *)
Record POINT : Type := mkPOINT { pt_x : Z; pt_y : Z }.

(** The further [user32] calls of [window.py].  Each returns a C int. *)
Record Desktop (W : Type) : Type := mkDesktop {
  (* point passed by reference: the point written *)
  GetCursorPos : POINT -> W -> result POINT * W;
  WindowFromPoint : POINT -> W -> result Z * W;
  IsWindow : Z -> W -> result Z * W
}.
Arguments GetCursorPos {W}.
Arguments WindowFromPoint {W}.
Arguments IsWindow {W}.

Section Window.

Context {W : Type}.
Variable host : Host W.
Variable desk : Desktop W.

(** A call into the desktop: not logged, unless it throws. *)
Definition ask {A} (op : W -> result A * W) : M W A :=
  fun s =>
    let '(r, w) := op (world s) in
    (r, {| self := self s; world := w |},
     match r with Ok _ => [] | Raise e => [Threw e] end).

Definition get_window_at_cursor : M W Z :=
  bind (ask (GetCursorPos desk (mkPOINT 0 0))) (fun point =>
  ask (WindowFromPoint desk point)).

(** [capture_window(hwnd)]; [None] for [hwnd] is Python's [None].  It is
    a function of the module, and leaves [self] of the state alone. *)
Definition capture_window (hwnd : option Z) : M W (option Image) :=
  bind (match hwnd with
        | None => get_window_at_cursor
        | Some given => ret given
        end) (fun hwnd =>
  (* [not hwnd or not user32.IsWindow(hwnd)] *)
  bind (if hwnd =? 0 then ret true
        else bind (ask (IsWindow desk hwnd)) (fun is_window =>
             ret (is_window =? 0))) (fun invalid =>
  if (invalid : bool) then ret None
  else
    bind (get_window_rect host hwnd) (fun rect =>
    let '(left_, top_, width_, height_) := rect in
    if (width_ <=? 0) || (height_ <=? 0) then ret None
    else
      let region := (left_, top_, width_, height_) in
      bind (call (Grab region) (grab host region)) (fun screenshot =>
      bind (lift (frombytes (shot_width screenshot,
                             shot_height screenshot)
                            (rgb screenshot))) (fun img =>
      ret (Some img)))))).

End Window.

(** A desktop where the cursor is over window 1, the only window. *)
Definition sim_desk : Desktop Sim :=
  {| GetCursorPos := fun _ w => (Ok (mkPOINT 3 3), w);
     WindowFromPoint := fun _ w => (Ok 1, w);
     IsWindow := fun hwnd w => (Ok (if hwnd =? 1 then 1 else 0), w) |}.

(** ** Reading a run *)

Definition outcome {W A} (run : result A * State W * list Event)
  : result A := fst (fst run).
Definition final {W A} (run : result A * State W * list Event)
  : State W := snd (fst run).
Definition events {W A} (run : result A * State W * list Event)
  : list Event := snd run.

(** The rectangles [get_window_rect] reported, and the regions handed
    to the grabber, in order. *)
Definition rect_queries (evs : list Event) : list Rect :=
  flat_map (fun ev => match ev with RectQuery _ r => [r] | _ => [] end) evs.

Definition grab_regions (evs : list Event) : list Rect :=
  flat_map (fun ev => match ev with Grab r => [r] | _ => [] end) evs.

Definition rect_eqb (a b : Rect) : bool :=
  let '(al, at_, aw, ah) := a in
  let '(bl, bt, bw, bh) := b in
  (al =? bl) && (at_ =? bt) && (aw =? bw) && (ah =? bh).

(** "Every grab follows a rectangle query of its own and covers the
    rectangle that query reported": [fresh] is the rectangle queried
    since the last grab, if any. *)
Fixpoint grabs_requery (fresh : option Rect) (evs : list Event) : bool :=
  match evs with
  | [] => true
  | RectQuery _ r :: evs' => grabs_requery (Some r) evs'
  | Grab region :: evs' =>
      match fresh with
      | Some r => rect_eqb region r && grabs_requery None evs'
      | None => false
      end
  | _ :: evs' => grabs_requery fresh evs'
  end.

(** The frames of the concrete scenarios. *)
Definition frame1 : Image := view 100 300 0.
(** frame 1 moved up by 220 rows: its last 80 rows, then 220 new ones *)
Definition frame2 : Image := view 100 300 220.

Definition small1 : Image := view 8 4 0.
Definition small2 : Image := view 8 4 100.

(** ** Concrete scenarios on the scripted host *)

(** The scenarios with small frames: an 8x4 window. *)
Definition sim_state (shots : list (result ScreenShot)) (d : Z)
           (keys : option nat) : State Sim :=
  mkState (__init__ 1)
          {| script := shots; bounds := mkRECT 0 0 8 4; drift := d;
             keys_before_failure := keys |}.

(** Three grabs: a frame, a second frame, the second frame again. *)
Definition three_shots (a b : Image) : list (result ScreenShot) :=
  [Ok (shot_of a); Ok (shot_of b); Ok (shot_of b)].




(** The grabber throws on its third call. *)
Definition state_grab_throws : State Sim :=
  sim_state [Ok (shot_of small1); Ok (shot_of small2); Raise (OSError 7)]
            0 None.

Definition run_grab_throws
  : result (option Image) * State Sim * list Event :=
  capture sim_host poly_hash 50 state_grab_throws.

(** The keyboard throws on the fifth key event: the first Page Down. *)
Definition run_key_throws
  : result (option Image) * State Sim * list Event :=
  capture sim_host poly_hash 50
          (sim_state (three_shots small1 small2) 0 (Some 4%nat)).

(** The window moves 10 pixels to the right at every Page Down. *)
Definition run_drifting
  : result (option Image) * State Sim * list Event :=
  capture sim_host poly_hash 50
          (sim_state (three_shots small1 small2) 10 None).

(** Two calls of [capture] on one object, and a call on a new object
    in the world the first call left. *)
Definition state_two_calls : State Sim :=
  sim_state [Ok (shot_of small1); Ok (shot_of small1);
             Ok (shot_of small2); Ok (shot_of small2)] 0 None.

Definition first_call : result (option Image) * State Sim * list Event :=
  capture sim_host poly_hash 50 state_two_calls.

Definition second_call : result (option Image) * State Sim * list Event :=
  capture sim_host poly_hash 50 (final first_call).

Definition fresh_call : result (option Image) * State Sim * list Event :=
  capture sim_host poly_hash 50
          (mkState (__init__ 1) (world (final first_call))).

(** The grabber answers once and throws on its second call. *)
Definition run_second_grab_throws
  : result (option Image) * State Sim * list Event :=
  capture sim_host poly_hash 2
          (sim_state [Ok (shot_of small1); Raise (OSError 7)] 0 None).

(** [frame1] with everything below row 40 replaced: the first 10000
    bytes, 33 rows and a third, are those of [frame1]. *)
Definition tail_changed : Image :=
  build 100 300 (fun _ y => if y <? 40 then page_row y
                            else page_row (y + 7)).

(** The grabber is about to return [tail_changed]. *)
Definition state_tail_changed : State Sim :=
  sim_start [Ok (shot_of tail_changed)].

(** [frame2] blacked out except for the first 50 rows of its 24 middle
    columns. *)
Definition frame2_masked : Image :=
  build 100 300 (fun x y => if (38 <=? x) && (x <? 62) && (y <? 50)
                            then page_row (220 + y) else black).

(** The grabber is about to return one small frame. *)
Definition state_one_shot : State Sim :=
  sim_state [Ok (shot_of small1)] 0 None.

(** The grabber has nothing to return, and throws. *)
Definition state_no_shot : State Sim := sim_state [] 0 None.

(** Two different frames, then the second again: the loop stores two
    frames and stops at the third grab. *)
Definition state_two_frames : State Sim :=
  sim_state (three_shots small1 small2) 0 None.

(** ** The pixel rows the stitcher keeps *)

(** From each frame after the first, its rows below the overlap. *)
Fixpoint kept_rows (rest : list Image) (overlaps : list Z)
  : list (list pixel) :=
  match rest, overlaps with
  | curr :: rest', o :: overlaps' =>
      skipn (Z.to_nat o) (rows curr) ++ kept_rows rest' overlaps'
  | _, _ => []
  end.

(** ** Reading the store and the trace of a run *)

(** No frame of [frames] has the fingerprint of the frame before it,
    nor the first one the fingerprint [previous_hash]. *)
Fixpoint no_repeat (hash : list byte -> Z) (previous_hash : option Z)
         (frames : list Image) : Prop :=
  match frames with
  | [] => True
  | f :: frames' =>
      hash_eq (fingerprint hash f) previous_hash = false
      /\ no_repeat hash (Some (fingerprint hash f)) frames'
  end.

(** A Page Down key going down. *)
Definition is_page_down (ev : Event) : bool :=
  match ev with
  | Key vk flags => (vk =? VK_NEXT) && (flags =? 0)
  | _ => false
  end.

Definition page_downs (evs : list Event) : nat :=
  length (filter is_page_down evs).

(** A rectangle with something in it. *)
Definition positive_region (r : Rect) : Prop :=
  let '(_, _, width, height) := r in 0 < width /\ 0 < height.

(** No grab, or one grab, of a rectangle with something in it, the one
    rectangle the run queried. *)
Definition one_positive_grab (evs : list Event) : Prop :=
  grab_regions evs = []
  \/ exists r, grab_regions evs = [r] /\ rect_queries evs = [r]
               /\ positive_region r.

(** The keyboard events of a run: virtual key and flags, in order. *)
Definition key_events (evs : list Event) : list (Z * Z) :=
  flat_map (fun ev => match ev with Key vk flags => [(vk, flags)]
                                  | _ => [] end) evs.

(** Ctrl+Home, pressed and released. *)
Definition top_keys : list (Z * Z) :=
  [(VK_CONTROL, 0); (VK_HOME, 0); (VK_HOME, 2); (VK_CONTROL, 2)].

(** Page Down pressed and released, [n] times over. *)
Definition page_down_keys (n : nat) : list (Z * Z) :=
  concat (repeat [(VK_NEXT, 0); (VK_NEXT, 2)] n).

(** ** What a computation may do

    Properties of a computation of the capture monad, each closed under
    [bind]: which events it can cause, that it only adds to the store,
    that what a host call throws is what comes out, and that the model's
    fuel is never what stops it. *)

Definition emits_only {W} (P : Event -> Prop) {A} (m : M W A) : Prop :=
  forall s, Forall P (events (m s)).

Definition grows {W A} (m : M W A) : Prop :=
  forall s, exists more,
    images (self (final (m s))) = images (self s) ++ more
    /\ hwnd (self (final (m s))) = hwnd (self s).

Definition propagates {W A} (m : M W A) : Prop :=
  forall s e, In (Threw e) (events (m s)) -> outcome (m s) = Raise e.

Definition fuelled {W A} (m : M W A) : Prop :=
  forall s, outcome (m s) = Raise LoopFuel ->
            In (Threw LoopFuel) (events (m s)).

(** What [m] raises, the call that threw has logged. *)
Definition logged {W A} (m : M W A) : Prop :=
  forall s e, outcome (m s) = Raise e -> In (Threw e) (events (m s)).

(** Events that neither query the rectangle nor grab. *)
Definition quiet (ev : Event) : Prop :=
  match ev with
  | RectQuery _ _ | Grab _ => False
  | _ => True
  end.

(** Events of the loop entered with [rect]: no query, grabs of [rect]. *)
Definition loop_event (rect : Rect) (ev : Event) : Prop :=
  match ev with
  | RectQuery _ _ => False
  | Grab region => region = rect
  | _ => True
  end.

(** At most one rectangle query, and every grab is of that rectangle. *)
Definition one_query (evs : list Event) : Prop :=
  (length (rect_queries evs) <= 1)%nat
  /\ forall region, In region (grab_regions evs) ->
                    rect_queries evs = [region].

Ltac run_proj :=
  repeat match goal with
    | |- context [final (?r, ?s, ?e)] => change (final (r, s, e)) with s
    | |- context [outcome (?r, ?s, ?e)] => change (outcome (r, s, e)) with r
    | |- context [events (?r, ?s, ?e)] => change (events (r, s, e)) with e
    end.

(** Splits a conjunction into its parts. *)
Ltac split_all := repeat match goal with |- _ /\ _ => split end.

(** Closes the side goals of one round of the loop. *)
Ltac round_done :=
  repeat match goal with |- _ /\ _ => split end;
  first [ reflexivity | lia | exact I | assumption
        | solve [constructor; [assumption|constructor]]
        | solve [constructor]
        | discriminate | idtac ].

(** * Properties *)

(** ** Images *)

Lemma crop_ok (img : Image) (x0 upper x1 lower : Z) :
  x0 <= x1 -> upper <= lower ->
  crop img (x0, upper, x1, lower)
  = Ok (build (x1 - x0) (lower - upper)
              (fun x y => getpixel img (x0 + x) (upper + y))).
Proof.
  intros Hx Hy. unfold crop.
  destruct (Z.ltb_spec x1 x0); [lia|].
  destruct (Z.ltb_spec lower upper); [lia|]. reflexivity.
Qed.

Lemma new_ok (w h : Z) :
  0 <= w -> 0 <= h -> new (w, h) = Ok (build w h (fun _ _ => black)).
Proof.
  intros Hw Hh. unfold new.
  destruct (Z.ltb_spec w 0); [lia|].
  destruct (Z.ltb_spec h 0); [lia|]. reflexivity.
Qed.

Lemma In_zseq (k : Z) (n : nat) (l : Z) :
  In k (zseq l n) <-> l <= k < l + Z.of_nat n.
Proof.
  revert l. induction n as [|n IH]; intros l; simpl zseq.
  - simpl. lia.
  - simpl In. rewrite IH. lia.
Qed.

Lemma zseq_sorted (f : Z -> Z) (n : nat) (l : Z) :
  (forall a b, a < b -> f a < f b) ->
  StronglySorted Z.lt (map f (zseq l n)).
Proof.
  intros Hf. revert l. induction n as [|n IH]; intros l; simpl.
  - constructor.
  - constructor; [apply IH|].
    apply Forall_forall. intros y Hy.
    apply in_map_iff in Hy. destruct Hy as [k [<- Hk]].
    apply In_zseq in Hk. apply Hf. lia.
Qed.

(** ** The scan range *)

Lemma In_range_step (c start stop : Z) :
  In c (range_step start stop 10)
  <-> exists k, 0 <= k /\ c = start + 10 * k /\ c < stop.
Proof.
  unfold range_step. rewrite in_map_iff. split.
  - intros [k [<- Hk]]. apply In_zseq in Hk. exists k.
    assert (Hq : k < (stop - start + 10 - 1) / 10) by lia.
    pose proof (Z.mul_div_le (stop - start + 10 - 1) 10 ltac:(lia)).
    lia.
  - intros [k [Hk [-> Hlt]]]. exists k. split; [reflexivity|].
    apply In_zseq.
    assert (k + 1 <= (stop - start + 10 - 1) / 10).
    { apply Z.div_le_lower_bound; lia. }
    lia.
Qed.

Lemma range_step_sorted (start stop : Z) :
  StronglySorted Z.lt (range_step start stop 10).
Proof. unfold range_step. apply zseq_sorted. intros; lia. Qed.

Lemma candidates_range (img1 img2 : Image) (c : Z) :
  In c (candidates img1 img2)
  <-> exists k, 0 <= k /\ c = 50 + 10 * k /\ c < max_overlap img1 img2.
Proof. unfold candidates, strip_height. apply In_range_step. Qed.

Lemma candidates_small (img1 img2 : Image) :
  Z.min (height img1) (height img2) <= 101 -> candidates img1 img2 = [].
Proof.
  intros H. unfold candidates, range_step, max_overlap, strip_height.
  assert (Hq : Z.min (height img1) (height img2) / 2 <= 50).
  { apply Z.lt_succ_r. apply Z.div_lt_upper_bound; lia. } 
  assert (Hz : (Z.min (height img1) (height img2) / 2 - 50 + 10 - 1) / 10 <= 0).
  { apply Z.lt_succ_r. apply Z.div_lt_upper_bound; lia. } 
  destruct ((Z.min (height img1) (height img2) / 2 - 50 + 10 - 1) / 10);
    try lia; reflexivity.
Qed.

(** ** The overlap locator *)

Lemma strips_match_total (img1 img2 : Image) (overlap : Z) :
  0 <= width img1 ->
  exists b, strips_match img1 img2 (sample_x img1) (sample_width img1)
                         overlap = Ok b.
Proof.
  intros Hw. unfold strips_match, strip_height.
  assert (Hs : 0 <= sample_width img1 / 2).
  { apply Z.div_pos; [|lia]. unfold sample_width.
    assert (0 <= width img1 / 4) by (apply Z.div_pos; lia). lia. }
  rewrite !crop_ok by lia. simpl. eauto.
Qed.

Section Scan.

Variables img1 img2 : Image.
Hypothesis Hwidth : 0 <= width img1.

Let sm := strips_match img1 img2 (sample_x img1) (sample_width img1).

Lemma scan_overlaps_spec (cands : list Z) :
  StronglySorted Z.lt cands ->
  exists o,
    scan_overlaps img1 img2 (sample_x img1) (sample_width img1) cands
    = Ok o
    /\ ((o = 0 /\ forall c, In c cands -> sm c = Ok false)
        \/ (In o cands /\ sm o = Ok true
            /\ forall c, In c cands -> c < o -> sm c = Ok false)).
Proof.
  induction cands as [|c0 rest IH]; intros Hs.
  - exists 0. split; [reflexivity|]. left. split; [reflexivity|].
    intros c [].
  - inversion Hs as [|? ? Hrest Hall]; subst.
    destruct (strips_match_total img1 img2 c0 Hwidth) as [b Hb].
    simpl scan_overlaps. rewrite Hb. simpl rbind.
    destruct b.
    + exists c0. split; [reflexivity|]. right.
      split; [left; reflexivity|]. split; [exact Hb|].
      intros c [->|Hin] Hlt; [lia|].
      rewrite Forall_forall in Hall. specialize (Hall c Hin). lia.
    + destruct (IH Hrest) as [o [Ho Hcase]].
      exists o. split; [exact Ho|].
      destruct Hcase as [[-> Hnone]|[Hin [Hm Hless]]].
      * left. split; [reflexivity|].
        intros c [<-|Hc]; [exact Hb|apply Hnone, Hc].
      * right. split; [right; exact Hin|]. split; [exact Hm|].
        intros c [<-|Hc] Hlt; [exact Hb|apply Hless; assumption].
Qed.

End Scan.

(** What [_find_overlap] returns, for any two frames: it never throws;
    it returns 0 exactly when no candidate matched, and otherwise the
    first candidate that did. *)
Lemma find_overlap_spec (img1 img2 : Image) :
  0 <= width img1 ->
  exists o,
    _find_overlap img1 img2 = Ok o
    /\ ((o = 0
         /\ forall c, In c (candidates img1 img2) ->
                      strips_match img1 img2 (sample_x img1)
                                   (sample_width img1) c = Ok false)
        \/ (In o (candidates img1 img2)
            /\ strips_match img1 img2 (sample_x img1)
                            (sample_width img1) o = Ok true
            /\ forall c, In c (candidates img1 img2) -> c < o ->
                         strips_match img1 img2 (sample_x img1)
                                      (sample_width img1) c = Ok false)).
Proof.
  intros Hw. unfold _find_overlap.
  apply scan_overlaps_spec; [exact Hw|].
  unfold candidates. apply range_step_sorted.
Qed.

Lemma find_overlap_bounds (img1 img2 : Image) :
  0 <= width img1 ->
  exists o, _find_overlap img1 img2 = Ok o
            /\ (o = 0 \/ 50 <= o < max_overlap img1 img2).
Proof.
  intros Hw. destruct (find_overlap_spec img1 img2 Hw) as [o [Ho Hc]].
  exists o. split; [exact Ho|].
  destruct Hc as [[-> _]|[Hin _]]; [left; reflexivity|right].
  apply candidates_range in Hin. destruct Hin as [k [Hk [-> Hlt]]]. lia.
Qed.

(** ** The stitcher *)

Lemma height_paste_parts (parts : list Image) (canvas : Image) (y : Z) :
  height (paste_parts canvas y parts) = height canvas
  /\ width (paste_parts canvas y parts) = width canvas.
Proof.
  revert canvas y. induction parts as [|p parts IH]; intros canvas y.
  - split; reflexivity.
  - destruct (IH (paste canvas p (0, y)) (y + height p)) as [Hh Hw].
    cbn [paste_parts]. rewrite Hh, Hw. split; reflexivity.
Qed.

Lemma stitch_parts_heights (rest : list Image) (prev : Image) :
  Forall valid_size (prev :: rest) ->
  exists overlaps parts,
    pair_overlaps prev rest = Ok overlaps
    /\ stitch_parts prev rest = Ok parts
    /\ total_height parts = contributed rest overlaps
    /\ 0 <= contributed rest overlaps.
Proof.
  revert prev. induction rest as [|curr rest IH]; intros prev Hall.
  - exists [], []. repeat split; simpl; lia.
  - inversion Hall as [|? ? [Hpw Hph] Hrest]; subst.
    assert (Hcurr : valid_size curr) by (inversion Hrest; assumption).
    destruct Hcurr as [Hcw Hch].
    destruct (find_overlap_bounds prev curr Hpw) as [o [Ho Hrange]].
    destruct (IH curr Hrest) as [os [parts [Hos [Hparts [Hsum Hpos]]]]].
    assert (Hle : o = 0 \/ 0 < o <= height curr).
    { destruct Hrange as [->|[Hlo Hhi]]; [left; reflexivity|right].
      unfold max_overlap in Hhi.
      pose proof (Z.mul_div_le (Z.min (height prev) (height curr)) 2
                               ltac:(lia)).
      lia. }
    cbn [pair_overlaps stitch_parts]. rewrite Ho. cbn [rbind].
    rewrite Hos. cbn [rbind].
    destruct Hle as [->|[Hlo Hhi]].
    + change (0 <? 0) with false. cbn [rbind]. rewrite Hparts. cbn [rbind].
      exists (0 :: os), (curr :: parts).
      repeat split; simpl; lia.
    + destruct (Z.ltb_spec 0 o); [|lia].
      rewrite crop_ok by lia. cbn [rbind]. rewrite Hparts. cbn [rbind].
      eexists (o :: os), (_ :: parts).
      repeat split; simpl; lia.
Qed.

(** The size of what the stitcher returns, for any non-empty store of
    frames of valid size: it does not throw, it is as wide as the first
    frame, and as high as the first frame plus what each later frame
    contributes. *)
Lemma stitch_images_size (first : Image) (rest : list Image) :
  Forall valid_size (first :: rest) ->
  exists overlaps stitched,
    pair_overlaps first rest = Ok overlaps
    /\ _stitch_images (first :: rest) = Ok stitched
    /\ height stitched = height first + contributed rest overlaps
    /\ width stitched = width first.
Proof.
  intros Hall.
  destruct (stitch_parts_heights rest first Hall)
    as [os [parts [Hos [Hparts [Hsum Hpos]]]]].
  exists os. destruct rest as [|second rest].
  - exists first. simpl in Hos |- *. inversion Hos; subst.
    repeat split; simpl; lia.
  - inversion Hall as [|? ? [Hw Hh] _]; subst.
    unfold _stitch_images. rewrite Hparts. cbn [rbind].
    assert (Hth : 0 <= total_height (first :: parts)) by (simpl; lia).
    rewrite (new_ok _ _ Hw Hth). cbn [rbind].
    eexists. split; [exact Hos|]. split; [reflexivity|].
    destruct (height_paste_parts (first :: parts)
                (build (width first) (total_height (first :: parts))
                       (fun _ _ => black)) 0) as [-> ->].
    split; [|reflexivity]. rewrite <- Hsum. reflexivity.
Qed.

(** C1: for every non-empty frame sequence the stitched image's height
    is the first frame's height plus, for each later frame, its height
    minus the overlap the locator returned for it and its predecessor
    (0 when none was found). *)
Theorem stitched_height_invariant (first : Image) (rest : list Image) :
  Forall valid_size (first :: rest) ->
  exists overlaps stitched,
    pair_overlaps first rest = Ok overlaps
    /\ _stitch_images (first :: rest) = Ok stitched
    /\ height stitched = height first + contributed rest overlaps.
Proof.
  intros Hall.
  destruct (stitch_images_size first rest Hall)
    as [os [stitched [Hos [Hst [Hh _]]]]].
  exists os, stitched. repeat split; assumption.
Qed.

Lemma stitched_height_invariant_witness :
  Forall valid_size [view 8 4 0; view 8 4 2; view 8 4 4]
  /\ exists overlaps stitched,
       pair_overlaps (view 8 4 0) [view 8 4 2; view 8 4 4] = Ok overlaps
       /\ _stitch_images [view 8 4 0; view 8 4 2; view 8 4 4] = Ok stitched
       /\ height stitched
          = height (view 8 4 0)
            + contributed [view 8 4 2; view 8 4 4] overlaps.
Proof.
  assert (H : Forall valid_size [view 8 4 0; view 8 4 2; view 8 4 4]).
  { repeat constructor; simpl; lia. }
  split; [exact H|].
  exact (stitched_height_invariant (view 8 4 0) [view 8 4 2; view 8 4 4] H).
Defined.

(** C7: stitching a one-frame sequence returns that frame unchanged:
    same width, same height, the same bytes. *)
Theorem stitch_single_frame (f : Image) :
  _stitch_images [f] = Ok f
  /\ exists out, _stitch_images [f] = Ok out
                 /\ width out = width f /\ height out = height f
                 /\ tobytes out = tobytes f.
Proof.
  split; [reflexivity|]. exists f. repeat split; reflexivity.
Qed.

(** C5 as stated fails on frames a single row high: the locator
    answers 0, and the claimed range [0, floor(1/2)) is empty. *)
Lemma find_overlap_range_counterexample :
  _find_overlap (view 8 1 0) (view 8 1 1) = Ok 0
  /\ ~ (0 <= 0 < Z.min (height (view 8 1 0)) (height (view 8 1 1)) / 2).
Proof.
  split; [reflexivity|]. intros [_ H]. vm_compute in H. discriminate.
Qed.

(** C5 (amended): [_find_overlap] returns either 0, when no candidate
    matched, or an offset [50 + 10k] with [50 <= o < min(h1,h2)/2] that
    is the first candidate of the ascending scan whose strips meet the
    threshold; the result lies in [0, min(h1,h2)/2) whenever that range
    is not empty. *)
Theorem find_overlap_offset (img1 img2 : Image) :
  0 <= width img1 ->
  exists o,
    _find_overlap img1 img2 = Ok o
    /\ ((o = 0
         /\ forall c, In c (candidates img1 img2) ->
                      strips_match img1 img2 (sample_x img1)
                                   (sample_width img1) c = Ok false)
        \/ (50 <= o < Z.min (height img1) (height img2) / 2
            /\ (exists k, 0 <= k /\ o = 50 + 10 * k)
            /\ strips_match img1 img2 (sample_x img1)
                            (sample_width img1) o = Ok true
            /\ forall c, In c (candidates img1 img2) -> c < o ->
                         strips_match img1 img2 (sample_x img1)
                                      (sample_width img1) c = Ok false))
    /\ (0 < Z.min (height img1) (height img2) / 2 ->
        0 <= o < Z.min (height img1) (height img2) / 2).
Proof.
  intros Hw. destruct (find_overlap_spec img1 img2 Hw) as [o [Ho Hc]].
  exists o. split; [exact Ho|].
  destruct Hc as [[-> Hnone]|[Hin [Hm Hless]]].
  - split; [left; split; [reflexivity|exact Hnone]|]. lia.
  - apply candidates_range in Hin. destruct Hin as [k [Hk [Hk10 Hlt]]].
    unfold max_overlap in Hlt.
    split; [right|lia].
    split; [lia|]. split; [exists k; split; assumption|].
    split; assumption.
Qed.

Lemma find_overlap_offset_witness :
  0 <= width (view 100 300 0)
  /\ exists o, _find_overlap (view 100 300 0) (view 100 300 220) = Ok o
               /\ (0 < Z.min (height (view 100 300 0))
                             (height (view 100 300 220)) / 2 ->
                   0 <= o < Z.min (height (view 100 300 0))
                                  (height (view 100 300 220)) / 2).
Proof.
  assert (H : 0 <= width (view 100 300 0)) by (simpl; lia).
  split; [exact H|].
  destruct (find_overlap_offset (view 100 300 0) (view 100 300 220) H)
    as [o [Ho [_ Hr]]].
  exists o. split; assumption.
Defined.

(** ** Runs of the capture monad *)


Section Runs.

Context {W : Type}.
Variable host : Host W.
Variable hash : list byte -> Z.

Lemma run_bind {A B} (m : M W A) (k : A -> M W B) (s : State W) :
  bind m k s
  = match outcome (m s) with
    | Ok a => (outcome (k a (final (m s))), final (k a (final (m s))),
               events (m s) ++ events (k a (final (m s))))
    | Raise e => (Raise e, final (m s), events (m s))
    end.
Proof.
  unfold bind, outcome, final, events.
  destruct (m s) as [[[a|e] s1] ev1]; simpl; [|reflexivity].
  destruct (k a s1) as [[r s2] ev2]. reflexivity.
Qed.

(** *** Which events a computation can cause *)


Lemma emits_ret P {A} (a : A) : emits_only (W:=W) P (ret a).
Proof. intros s. constructor. Qed.

Lemma emits_lift P {A} (r : result A) : emits_only (W:=W) P (lift r).
Proof. intros s. constructor. Qed.

Lemma emits_get_self P : emits_only (W:=W) P get_self.
Proof. intros s. constructor. Qed.

Lemma emits_append P img : emits_only (W:=W) P (images_append img).
Proof. intros s. constructor. Qed.

Lemma emits_emit (P : Event -> Prop) ev :
  P ev -> emits_only (W:=W) P (emit ev).
Proof. intros H s. repeat constructor. exact H. Qed.

Lemma emits_call (P : Event -> Prop) {A} ev (op : W -> result A * W) :
  P ev -> (forall e, P (Threw e)) -> emits_only P (call ev op).
Proof.
  intros Hev Hthrew s. unfold call, events.
  destruct (op (world s)) as [[a|e] w]; simpl; repeat constructor; auto.
Qed.

Lemma emits_bind P {A B} (m : M W A) (k : A -> M W B) :
  emits_only P m -> (forall a, emits_only P (k a)) ->
  emits_only P (bind m k).
Proof.
  intros Hm Hk s. rewrite run_bind.
  destruct (outcome (m s)) as [a|e]; run_proj.
  - apply Forall_app. split; [apply Hm|apply Hk].
  - apply Hm.
Qed.

(** *** The store only grows *)


Lemma grows_refl_state {A} (m : M W A) :
  (forall s, self (final (m s)) = self s) -> grows m.
Proof.
  intros H s. exists []. rewrite H, app_nil_r. split; reflexivity.
Qed.

Lemma grows_ret {A} (a : A) : grows (W:=W) (ret a).
Proof. apply grows_refl_state. reflexivity. Qed.

Lemma grows_lift {A} (r : result A) : grows (W:=W) (lift r).
Proof. apply grows_refl_state. reflexivity. Qed.

Lemma grows_get_self : grows (W:=W) get_self.
Proof. apply grows_refl_state. reflexivity. Qed.

Lemma grows_emit ev : grows (W:=W) (emit ev).
Proof. apply grows_refl_state. reflexivity. Qed.

Lemma grows_call {A} ev (op : W -> result A * W) : grows (call ev op).
Proof.
  apply grows_refl_state. intros s. unfold call, final.
  destruct (op (world s)) as [r w]. reflexivity.
Qed.

Lemma grows_append img : grows (W:=W) (images_append img).
Proof. intros s. exists [img]. split; reflexivity. Qed.

Lemma grows_bind {A B} (m : M W A) (k : A -> M W B) :
  grows m -> (forall a, grows (k a)) -> grows (bind m k).
Proof.
  intros Hm Hk s. rewrite run_bind.
  destruct (Hm s) as [more1 [H1 G1]].
  destruct (outcome (m s)) as [a|e]; run_proj.
  - destruct (Hk a (final (m s))) as [more2 [H2 G2]].
    exists (more1 ++ more2). split.
    + rewrite H2, H1, app_assoc. reflexivity.
    + rewrite G2, G1. reflexivity.
  - exists more1. split; assumption.
Qed.

(** *** What is thrown is what comes out *)


Lemma propagates_silent {A} (m : M W A) :
  (forall s, events (m s) = []) -> propagates m.
Proof. intros H s e Hin. rewrite H in Hin. destruct Hin. Qed.

Lemma propagates_ret {A} (a : A) : propagates (W:=W) (ret a).
Proof. apply propagates_silent. reflexivity. Qed.

Lemma propagates_lift {A} (r : result A) : propagates (W:=W) (lift r).
Proof. apply propagates_silent. reflexivity. Qed.

Lemma propagates_get_self : propagates (W:=W) get_self.
Proof. apply propagates_silent. reflexivity. Qed.

Lemma propagates_append img : propagates (W:=W) (images_append img).
Proof. apply propagates_silent. reflexivity. Qed.

Lemma propagates_emit ev :
  (forall e, ev <> Threw e) -> propagates (W:=W) (emit ev).
Proof.
  intros Hev s e [Hin|[]]. exfalso. exact (Hev e Hin).
Qed.

Lemma propagates_call {A} ev (op : W -> result A * W) :
  (forall e, ev <> Threw e) -> propagates (call ev op).
Proof.
  intros Hev s e. unfold call, events, outcome.
  destruct (op (world s)) as [[a|e'] w]; simpl.
  - intros [Hin|[]]. exfalso. exact (Hev e Hin).
  - intros [Hin|[Hin|[]]]; [exfalso; exact (Hev e Hin)|].
    inversion Hin. reflexivity.
Qed.

Lemma propagates_bind {A B} (m : M W A) (k : A -> M W B) :
  propagates m -> (forall a, propagates (k a)) -> propagates (bind m k).
Proof.
  intros Hm Hk s e. rewrite run_bind.
  destruct (outcome (m s)) as [a|e'] eqn:Hout; run_proj.
  - intros Hin. apply in_app_or in Hin. destruct Hin as [Hin|Hin].
    + apply Hm in Hin. congruence.
    + apply Hk, Hin.
  - intros Hin. apply Hm in Hin. congruence.
Qed.

(** A bind that came out [Ok] ran both halves. *)
Lemma bind_ok_inv {A B} (m : M W A) (k : A -> M W B) (s : State W) (b : B) :
  outcome (bind m k s) = Ok b ->
  exists a, outcome (m s) = Ok a
            /\ outcome (k a (final (m s))) = Ok b
            /\ final (bind m k s) = final (k a (final (m s))).
Proof.
  rewrite run_bind. destruct (outcome (m s)) as [a|e]; run_proj.
  - intros H. exists a. repeat split. exact H.
  - discriminate.
Qed.

(** *** The pieces of [capture] *)



Lemma key_emits P vk flags :
  P (Key vk flags) -> (forall e, P (Threw e)) ->
  emits_only P (key host vk flags).
Proof. intros. apply emits_call; assumption. Qed.

Lemma scroll_down_emits P :
  (forall vk flags, P (Key vk flags)) -> (forall e, P (Threw e)) ->
  emits_only P (_scroll_down host).
Proof.
  intros Hk Ht. unfold _scroll_down.
  repeat (apply emits_bind; [|intros ?]); apply key_emits; auto.
Qed.

Lemma scroll_to_top_emits P :
  (forall vk flags, P (Key vk flags)) -> (forall e, P (Threw e)) ->
  emits_only P (_scroll_to_top host).
Proof.
  intros Hk Ht. unfold _scroll_to_top.
  repeat (apply emits_bind; [|intros ?]); apply key_emits; auto.
Qed.

Lemma sleep_emits P ms :
  P (Sleep ms) -> (forall e, P (Threw e)) ->
  emits_only P (time_sleep host ms).
Proof. intros. apply emits_call; assumption. Qed.

Lemma front_emits P h :
  P (Foreground h) -> (forall e, P (Threw e)) ->
  emits_only P (bring_window_to_front host h).
Proof. intros. apply emits_call; assumption. Qed.

Lemma loop_emits (fuel : nat) :
  forall max_scrolls rect previous_hash scroll_count,
    emits_only (loop_event rect)
      (capture_loop host hash fuel max_scrolls rect previous_hash
                    scroll_count).
Proof.
  induction fuel as [|fuel IH]; intros max_scrolls rect prev count;
    cbn [capture_loop]; destruct (count <? max_scrolls);
    try apply emits_ret; try apply emits_lift.
  apply emits_bind; [apply emits_call; [reflexivity|intros ?; exact I]|].
  intros shot. apply emits_bind; [apply emits_lift|]. intros img.
  destruct (hash_eq _ prev); [apply emits_ret|].
  apply emits_bind; [apply emits_append|]. intros _.
  apply emits_bind; [apply scroll_down_emits; intros; exact I|]. intros _.
  apply emits_bind; [apply sleep_emits; [|intros ?]; exact I|]. intros _.
  apply IH.
Qed.

Lemma loop_grows (fuel : nat) :
  forall max_scrolls rect previous_hash scroll_count,
    grows (capture_loop host hash fuel max_scrolls rect previous_hash
                        scroll_count).
Proof.
  induction fuel as [|fuel IH]; intros max_scrolls rect prev count;
    cbn [capture_loop]; destruct (count <? max_scrolls);
    try apply grows_ret; try apply grows_lift.
  apply grows_bind; [apply grows_call|]. intros shot.
  apply grows_bind; [apply grows_lift|]. intros img.
  destruct (hash_eq _ prev); [apply grows_ret|].
  apply grows_bind; [apply grows_append|]. intros _.
  apply grows_bind.
  { unfold _scroll_down, key.
    apply grows_bind; [apply grows_call|intros _; apply grows_call]. }
  intros _. apply grows_bind; [apply grows_call|]. intros _. apply IH.
Qed.

Lemma loop_propagates (fuel : nat) :
  forall max_scrolls rect previous_hash scroll_count,
    propagates (capture_loop host hash fuel max_scrolls rect previous_hash
                             scroll_count).
Proof.
  induction fuel as [|fuel IH]; intros max_scrolls rect prev count;
    cbn [capture_loop]; destruct (count <? max_scrolls);
    try apply propagates_ret; try apply propagates_lift.
  apply propagates_bind; [apply propagates_call; discriminate|].
  intros shot. apply propagates_bind; [apply propagates_lift|]. intros img.
  destruct (hash_eq _ prev); [apply propagates_ret|].
  apply propagates_bind; [apply propagates_append|]. intros _.
  apply propagates_bind.
  { unfold _scroll_down, key.
    apply propagates_bind;
      [|intros _]; apply propagates_call; discriminate. }
  intros _.
  apply propagates_bind; [apply propagates_call; discriminate|].
  intros _. apply IH.
Qed.

(** *** Enough fuel *)


Lemma fuelled_ok {A} (m : M W A) :
  (forall s, exists a, outcome (m s) = Ok a) -> fuelled m.
Proof. intros H s Hr. destruct (H s) as [a Ha]. congruence. Qed.

Lemma fuelled_lift {A} (r : result A) :
  r <> Raise LoopFuel -> fuelled (W:=W) (lift r).
Proof. intros H s Hr. exfalso. apply H. exact Hr. Qed.

Lemma fuelled_call {A} ev (op : W -> result A * W) : fuelled (call ev op).
Proof.
  intros s. unfold call, outcome, events.
  destruct (op (world s)) as [[a|e] w]; cbn [fst snd].
  - discriminate.
  - intros H. inversion H. right. left. reflexivity.
Qed.

Lemma fuelled_bind {A B} (m : M W A) (k : A -> M W B) :
  fuelled m -> (forall a, fuelled (k a)) -> fuelled (bind m k).
Proof.
  intros Hm Hk s. rewrite run_bind.
  destruct (outcome (m s)) as [a|e] eqn:Hout; run_proj.
  - intros H. apply in_or_app. right. apply Hk, H.
  - intros H. apply Hm. congruence.
Qed.

Lemma loop_fuelled (fuel : nat) :
  forall max_scrolls rect previous_hash scroll_count,
    max_scrolls - scroll_count <= Z.of_nat fuel ->
    fuelled (capture_loop host hash fuel max_scrolls rect previous_hash
                          scroll_count).
Proof.
  induction fuel as [|fuel IH]; intros max_scrolls rect prev count Hfuel;
    cbn [capture_loop]; destruct (Z.ltb_spec count max_scrolls);
    try (apply fuelled_ok; intros s; exists tt; reflexivity);
    [lia|].
  apply fuelled_bind; [apply fuelled_call|]. intros shot.
  apply fuelled_bind.
  { apply fuelled_lift. unfold frombytes.
    destruct (_ || _); [discriminate|].
    destruct (negb _); discriminate. }
  intros img.
  destruct (hash_eq _ prev);
    [apply fuelled_ok; intros s; exists tt; reflexivity|].
  apply fuelled_bind;
    [apply fuelled_ok; intros s; exists tt; reflexivity|]. intros _.
  apply fuelled_bind.
  { unfold _scroll_down, key.
    apply fuelled_bind; [|intros _]; apply fuelled_call. }
  intros _. apply fuelled_bind; [apply fuelled_call|]. intros _.
  apply IH. lia.
Qed.

(** *** Single steps of the loop *)

Lemma run_get_self {B} (k : ScrollingCapture -> M W B) (s : State W) :
  bind get_self k s = k (self s) s.
Proof.
  unfold bind, get_self. destruct (k (self s) s) as [[r s2] ev2].
  reflexivity.
Qed.

Lemma bind_assoc {A B C} (m : M W A) (f : A -> M W B) (g : B -> M W C) s :
  bind (bind m f) g s = bind m (fun a => bind (f a) g) s.
Proof.
  unfold bind. destruct (m s) as [[[a|e] s1] ev1]; [|reflexivity].
  destruct (f a s1) as [[[b|e] s2] ev2]; [|reflexivity].
  destruct (g b s2) as [[r s3] ev3]. rewrite app_assoc. reflexivity.
Qed.

Lemma bind_call_ok {A B} ev (op : W -> result A * W) (k : A -> M W B)
      (me : ScrollingCapture) (w0 : W) a w :
  op w0 = (Ok a, w) ->
  bind (call ev op) k (mkState me w0)
  = (outcome (k a (mkState me w)), final (k a (mkState me w)),
     ev :: events (k a (mkState me w))).
Proof.
  intros H. unfold bind, call. cbn [world self]. rewrite H.
  destruct (k a _) as [[r s2] ev2]. reflexivity.
Qed.

Lemma bind_lift_ok {A B} (r : result A) (k : A -> M W B) (s : State W) a :
  r = Ok a -> bind (lift r) k s = k a s.
Proof.
  intros ->. unfold bind, lift. destruct (k a s) as [[r s2] ev2].
  reflexivity.
Qed.

Lemma bind_append {B} img (k : unit -> M W B) (s : State W) :
  bind (images_append img) k s
  = k tt (mkState (mkSelf (hwnd (self s)) (images (self s) ++ [img])
                          (_scroll_amount (self s)))
                  (world s)).
Proof.
  unfold bind, images_append. destruct (k tt _) as [[r s2] ev2].
  reflexivity.
Qed.

(** The loop has run its course. *)
Lemma loop_done fuel max_scrolls rect previous_hash scroll_count s :
  max_scrolls <= scroll_count ->
  capture_loop host hash fuel max_scrolls rect previous_hash scroll_count s
  = (Ok tt, s, []).
Proof.
  intros H. destruct fuel; cbn [capture_loop];
    destruct (Z.ltb_spec scroll_count max_scrolls); try lia; reflexivity.
Qed.

(** The frame just grabbed has the fingerprint of the one before: the
    loop stops, and the frame is dropped. *)
Lemma loop_step_stop fuel max_scrolls rect previous_hash scroll_count s
      shot img w1 :
  scroll_count < max_scrolls ->
  grab host rect (world s) = (Ok shot, w1) ->
  frombytes (shot_width shot, shot_height shot) (rgb shot) = Ok img ->
  hash_eq (fingerprint hash img) previous_hash = true ->
  capture_loop host hash (S fuel) max_scrolls rect previous_hash
               scroll_count s
  = (Ok tt, mkState (self s) w1, [Grab rect]).
Proof.
  intros Hlt Hgrab Hfrom Hdup. cbn [capture_loop].
  destruct (Z.ltb_spec scroll_count max_scrolls); [|lia].
  destruct s as [me w0]. cbn [self world] in *.
  rewrite (bind_call_ok _ _ _ _ _ _ _ Hgrab).
  rewrite (bind_lift_ok _ _ _ _ Hfrom). rewrite Hdup. reflexivity.
Qed.


(** *** The whole of [capture] *)

Lemma quiet_projections (evs : list Event) :
  Forall quiet evs -> rect_queries evs = [] /\ grab_regions evs = [].
Proof.
  induction 1 as [|ev evs Hev _ [IHr IHg]]; [split; reflexivity|].
  destruct ev; simpl in Hev; try contradiction;
    unfold rect_queries, grab_regions in *; simpl;
    rewrite ?IHr, ?IHg; split; reflexivity.
Qed.

Lemma loop_projections (rect : Rect) (evs : list Event) :
  Forall (loop_event rect) evs ->
  rect_queries evs = []
  /\ forall region, In region (grab_regions evs) -> region = rect.
Proof.
  induction 1 as [|ev evs Hev _ [IHr IHg]];
    [split; [reflexivity|intros ? []]|].
  destruct ev; simpl in Hev; try contradiction;
    unfold rect_queries, grab_regions in *; simpl;
    (split; [exact IHr|]); try exact IHg.
  intros r [<-|Hin]; [exact Hev|apply IHg, Hin].
Qed.


Lemma one_query_quiet (q : list Event) : Forall quiet q -> one_query q.
Proof.
  intros H. destruct (quiet_projections q H) as [Hr Hg].
  unfold one_query. rewrite Hr, Hg. split; [simpl; lia|intros ? []].
Qed.

Lemma one_query_quiet_app (q evs : list Event) :
  Forall quiet q -> one_query evs -> one_query (q ++ evs).
Proof.
  intros H [Hlen Hgrab]. destruct (quiet_projections q H) as [Hr Hg].
  unfold one_query, rect_queries, grab_regions in *.
  rewrite !flat_map_app, Hr, Hg. simpl. split; assumption.
Qed.

Lemma one_query_bind_quiet {A B} (m : M W A) (k : A -> M W B) s :
  emits_only quiet m ->
  (forall a s', one_query (events (k a s'))) ->
  one_query (events (bind m k s)).
Proof.
  intros Hm Hk. rewrite run_bind.
  destruct (outcome (m s)) as [a|e]; run_proj.
  - apply one_query_quiet_app; [apply Hm|apply Hk].
  - apply one_query_quiet, Hm.
Qed.

Lemma get_window_rect_events h s :
  match outcome (get_window_rect host h s) with
  | Ok out => exists q, events (get_window_rect host h s)
                        = q ++ [RectQuery h out]
                        /\ Forall quiet q
  | Raise _ => Forall quiet (events (get_window_rect host h s))
  end.
Proof.
  unfold get_window_rect. rewrite run_bind.
  set (m1 := call (DwmCall h) _).
  assert (Hq1 : emits_only quiet m1)
    by (apply emits_call; [|intros ?]; exact I).
  specialize (Hq1 s).
  destruct (outcome (m1 s)) as [[hresult rect]|e]; run_proj; [|exact Hq1].
  rewrite run_bind.
  set (m2 := if negb (hresult =? 0) then _ else _).
  assert (Hq2 : emits_only quiet m2).
  { subst m2. destruct (negb _);
      [apply emits_call; [|intros ?]; exact I|apply emits_ret]. }
  specialize (Hq2 (final (m1 s))).
  destruct (outcome (m2 (final (m1 s)))) as [rect'|e]; run_proj.
  - exists (events (m1 s) ++ events (m2 (final (m1 s)))).
    split; [rewrite <- app_assoc; reflexivity|].
    apply Forall_app. split; assumption.
  - apply Forall_app. split; assumption.
Qed.

Lemma one_query_bind_rect {B} h (k : Rect -> M W B) s :
  (forall rect s', Forall (loop_event rect) (events (k rect s'))) ->
  one_query (events (bind (get_window_rect host h) k s)).
Proof.
  intros Hk. rewrite run_bind.
  pose proof (get_window_rect_events h s) as Hq.
  destruct (outcome (get_window_rect host h s)) as [rect|e]; run_proj.
  - destruct Hq as [q [-> Hquiet]]. rewrite <- app_assoc.
    apply one_query_quiet_app; [exact Hquiet|].
    destruct (loop_projections rect _
                (Hk rect (final (get_window_rect host h s)))) as [Hr Hg].
    unfold one_query, rect_queries, grab_regions in *.
    rewrite !flat_map_app, Hr. cbn [flat_map app].
    split; [simpl; lia|].
    intros region Hin. rewrite (Hg region Hin). reflexivity.
  - apply one_query_quiet, Hq.
Qed.

(** What follows the rectangle query in [capture]. *)
Lemma after_query_emits max_scrolls rect :
  emits_only (loop_event rect)
    (bind (_scroll_to_top host) (fun _ =>
     bind (time_sleep host 50) (fun _ =>
     bind (capture_loop host hash (Z.to_nat max_scrolls) max_scrolls rect
                        None 0) (fun _ =>
     bind get_self (fun me =>
       match images me with
       | [] => ret None
       | _ => bind (lift (_stitch_images (images me)))
                   (fun stitched => ret (Some stitched))
       end))))).
Proof.
  apply emits_bind; [apply scroll_to_top_emits; intros; exact I|]. intros _.
  apply emits_bind; [apply sleep_emits; [|intros ?]; exact I|]. intros _.
  apply emits_bind; [apply loop_emits|]. intros _.
  apply emits_bind; [apply emits_get_self|]. intros me.
  destruct (images me); [apply emits_ret|].
  apply emits_bind; [apply emits_lift|]. intros ?. apply emits_ret.
Qed.

Lemma capture_one_query max_scrolls s :
  one_query (events (capture host hash max_scrolls s)).
Proof.
  unfold capture. rewrite run_get_self.
  apply one_query_bind_quiet;
    [apply front_emits; [|intros ?]; exact I|]. intros _ s1.
  apply one_query_bind_quiet;
    [apply sleep_emits; [|intros ?]; exact I|]. intros _ s2.
  apply one_query_bind_rect. intros rect s3.
  apply after_query_emits.
Qed.

Lemma capture_grows max_scrolls : grows (capture host hash max_scrolls).
Proof.
  unfold capture, get_window_rect, _scroll_to_top, key, time_sleep,
    bring_window_to_front.
  repeat first
    [ apply grows_ret | apply grows_lift | apply grows_get_self
    | apply grows_call | apply grows_emit | apply loop_grows
    | apply grows_bind; [|intros ?]
    | match goal with
      | |- grows (let '(_, _) := ?x in _) => destruct x
      | |- grows (if ?b then _ else _) => destruct b
      | |- grows (match images ?me with _ => _ end) => destruct (images me)
      end ].
Qed.

Lemma capture_propagates max_scrolls :
  propagates (capture host hash max_scrolls).
Proof.
  unfold capture, get_window_rect, _scroll_to_top, key, time_sleep,
    bring_window_to_front.
  repeat first
    [ apply propagates_ret | apply propagates_lift
    | apply propagates_get_self
    | apply propagates_call; discriminate
    | apply propagates_emit; discriminate
    | apply loop_propagates
    | apply propagates_bind; [|intros ?]
    | match goal with
      | |- propagates (let '(_, _) := ?x in _) => destruct x
      | |- propagates (if ?b then _ else _) => destruct b
      | |- propagates (match images ?me with _ => _ end) =>
          destruct (images me)
      end ].
Qed.

(** A [capture] that returned went through the loop, and returned
    what the stitcher made of the whole store. *)
Lemma capture_ok_inv max_scrolls s r :
  outcome (capture host hash max_scrolls s) = Ok r ->
  exists rect s0,
    outcome (capture_loop host hash (Z.to_nat max_scrolls) max_scrolls
                          rect None 0 s0) = Ok tt
    /\ final (capture host hash max_scrolls s)
       = final (capture_loop host hash (Z.to_nat max_scrolls) max_scrolls
                             rect None 0 s0)
    /\ match images (self (final (capture host hash max_scrolls s))) with
       | [] => r = None
       | stored => exists stitched,
                     _stitch_images stored = Ok stitched
                     /\ r = Some stitched
       end.
Proof.
  unfold capture. intros H.
  apply bind_ok_inv in H. destruct H as [me [_ [H ->]]].
  apply bind_ok_inv in H. destruct H as [[] [_ [H ->]]].
  apply bind_ok_inv in H. destruct H as [[] [_ [H ->]]].
  apply bind_ok_inv in H. destruct H as [rect [_ [H ->]]].
  apply bind_ok_inv in H. destruct H as [[] [_ [H ->]]].
  apply bind_ok_inv in H. destruct H as [[] [_ [H ->]]].
  match type of H with
  | outcome (bind _ _ ?s0) = _ => exists rect, s0
  end.
  apply bind_ok_inv in H. destruct H as [[] [Hloop [H ->]]].
  split; [exact Hloop|].
  rewrite run_get_self in H |- *.
  match type of H with
  | outcome (_ ?sf) = _ => set (final_state := sf) in *
  end.
  destruct (images (self final_state)) as [|first rest] eqn:Himgs.
  - split; [reflexivity|]. cbn [ret final self fst snd]. rewrite Himgs.
    inversion H. reflexivity.
  - apply bind_ok_inv in H. destruct H as [stitched [Hst [H ->]]].
    split; [reflexivity|]. cbn [ret lift final self fst snd].
    rewrite Himgs. exists stitched. split; [exact Hst|].
    inversion H. reflexivity.
Qed.

(** With at least one iteration allowed, a loop that ends normally has
    stored a frame. *)
Lemma first_frame_stored fuel max_scrolls rect s shot img w1 :
  0 < max_scrolls ->
  grab host rect (world s) = (Ok shot, w1) ->
  frombytes (shot_width shot, shot_height shot) (rgb shot) = Ok img ->
  exists more,
    images (self (final (capture_loop host hash (S fuel) max_scrolls rect
                                      None 0 s)))
    = images (self s) ++ img :: more.
Proof.
  intros Hmax Hgrab Hfrom. cbn [capture_loop].
  destruct (Z.ltb_spec 0 max_scrolls); [|lia].
  destruct s as [me w0]. cbn [self world] in *.
  rewrite (bind_call_ok _ _ _ _ _ _ _ Hgrab). run_proj.
  rewrite (bind_lift_ok _ _ _ _ Hfrom). cbn [hash_eq].
  rewrite bind_append. cbn [self world hwnd images _scroll_amount].
  match goal with
  | |- context [final (?m ?s1)] =>
      assert (Hg : grows m); [|destruct (Hg s1) as [more [Hm _]]]
  end.
  { apply grows_bind.
    - unfold _scroll_down, key.
      apply grows_bind; [|intros _]; apply grows_call.
    - intros _. apply grows_bind; [apply grows_call|]. intros _.
      apply loop_grows. }
  exists more. rewrite Hm. cbn [self images].
  rewrite <- app_assoc. reflexivity.
Qed.

Lemma loop_stores_or_throws fuel max_scrolls rect s :
  0 < max_scrolls ->
  outcome (capture_loop host hash (S fuel) max_scrolls rect None 0 s)
  = Ok tt ->
  images (self (final (capture_loop host hash (S fuel) max_scrolls rect
                                    None 0 s))) <> [].
Proof.
  intros Hmax Hok.
  destruct (grab host rect (world s)) as [[shot|e] w1] eqn:Hgrab.
  - destruct (frombytes (shot_width shot, shot_height shot) (rgb shot))
      as [img|e] eqn:Hfrom.
    + destruct (first_frame_stored fuel max_scrolls rect s shot img w1
                                   Hmax Hgrab Hfrom) as [more ->].
      intros Hnil. apply app_eq_nil in Hnil. destruct Hnil; discriminate.
    + exfalso. revert Hok. cbn [capture_loop].
      destruct (Z.ltb_spec 0 max_scrolls); [|lia].
      destruct s as [me w0]. cbn [self world] in *.
      rewrite (bind_call_ok _ _ _ _ _ _ _ Hgrab). run_proj.
      unfold bind, lift. rewrite Hfrom. discriminate.
  - exfalso. revert Hok. cbn [capture_loop].
    destruct (Z.ltb_spec 0 max_scrolls); [|lia].
    unfold bind, call. rewrite Hgrab. discriminate.
Qed.

Lemma capture_never_none max_scrolls s :
  1 <= max_scrolls ->
  outcome (capture host hash max_scrolls s) <> Ok None.
Proof.
  intros Hmax Hnone.
  destruct (capture_ok_inv max_scrolls s None Hnone)
    as [rect [s0 [Hloop [Hfinal Hstore]]]].
  rewrite Hfinal in Hstore.
  destruct (Z.to_nat max_scrolls) as [|fuel] eqn:Hfuel; [lia|].
  pose proof (loop_stores_or_throws fuel max_scrolls rect s0
                                    ltac:(lia) Hloop) as Hne.
  destruct (images (self (final _))) as [|first rest];
    [apply Hne; reflexivity|].
  destruct Hstore as [stitched [_ Hsome]]. discriminate.
Qed.

End Runs.

(** ** Raw bytes and back *)

Lemma length_zseq (n : nat) (l : Z) : length (zseq l n) = n.
Proof.
  revert l. induction n as [|n IH]; intros l; simpl; [|rewrite IH];
    reflexivity.
Qed.

Lemma wf_build (w h : Z) (f : Z -> Z -> pixel) :
  0 <= w -> 0 <= h -> wf (build w h f).
Proof.
  intros Hw Hh. unfold wf, valid_size, build. cbn [width height rows].
  repeat split; try assumption.
  - rewrite length_map, length_zseq. reflexivity.
  - apply Forall_forall. intros r Hr. apply in_map_iff in Hr.
    destruct Hr as [y [<- _]]. rewrite length_map, length_zseq.
    reflexivity.
Qed.

Lemma pixels_of_bytes_row (row : list pixel) (rest : list byte) :
  pixels_of_bytes (length row) (flat_map pixel_bytes row ++ rest) = row.
Proof.
  induction row as [|[[r g] b] row IH]; [reflexivity|].
  cbn [length flat_map pixel_bytes app pixels_of_bytes].
  rewrite IH. reflexivity.
Qed.

Lemma skipn_row (row : list pixel) (rest : list byte) :
  skipn (3 * length row) (flat_map pixel_bytes row ++ rest) = rest.
Proof.
  induction row as [|[[r g] b] row IH]; [reflexivity|].
  cbn [length flat_map pixel_bytes app].
  replace (3 * S (length row))%nat with (S (S (S (3 * length row))))
    by lia.
  cbn [skipn]. exact IH.
Qed.

Lemma rows_of_bytes_rows (w : nat) (rws : list (list pixel)) :
  Forall (fun r => length r = w) rws ->
  rows_of_bytes w (length rws) (flat_map (flat_map pixel_bytes) rws) = rws.
Proof.
  induction 1 as [|row rws Hrow _ IH]; [reflexivity|].
  cbn [length flat_map rows_of_bytes]. subst w.
  rewrite pixels_of_bytes_row, skipn_row, IH. reflexivity.
Qed.

Lemma length_row_bytes (row : list pixel) :
  length (flat_map pixel_bytes row) = (3 * length row)%nat.
Proof.
  induction row as [|[[r g] b] row IH]; [reflexivity|].
  cbn [flat_map pixel_bytes app length]. rewrite IH. lia.
Qed.

Lemma length_rows_bytes (w : nat) (rws : list (list pixel)) :
  Forall (fun r => length r = w) rws ->
  length (flat_map (flat_map pixel_bytes) rws) = (3 * w * length rws)%nat.
Proof.
  induction 1 as [|row rws Hrow _ IH]; [simpl; lia|].
  cbn [flat_map length]. rewrite length_app, length_row_bytes, IH, Hrow.
  lia.
Qed.

(** Decoding the bytes of a well-formed image gives the image back. *)
Lemma frombytes_tobytes (img : Image) :
  wf img -> frombytes (width img, height img) (tobytes img) = Ok img.
Proof.
  intros [[Hw Hh] [Hrows Hcols]]. unfold frombytes, tobytes.
  destruct (Z.ltb_spec (width img) 0); [lia|].
  destruct (Z.ltb_spec (height img) 0); [lia|]. cbn [orb].
  rewrite (length_rows_bytes _ _ Hcols), Hrows.
  destruct (Z.eqb_spec (Z.of_nat (3 * Z.to_nat (width img)
                                  * Z.to_nat (height img)))
                       (3 * width img * height img)) as [_|Hne];
    [|exfalso; apply Hne; lia].
  cbn [negb]. rewrite <- Hrows at 1.
  rewrite (rows_of_bytes_rows _ _ Hcols).
  destruct img; reflexivity.
Qed.

Lemma frombytes_shot_of (img : Image) :
  wf img ->
  frombytes (shot_width (shot_of img), shot_height (shot_of img))
            (rgb (shot_of img)) = Ok img.
Proof. apply frombytes_tobytes. Qed.

Lemma wf_view (w h top : Z) : 0 <= w -> 0 <= h -> wf (view w h top).
Proof. apply wf_build. Qed.

(** ** The model's exceptions are Python's *)

Lemma crop_not_fuel img box : crop img box <> Raise LoopFuel.
Proof.
  destruct box as [[[x0 upper] x1] lower]. unfold crop.
  destruct (x1 <? x0); [discriminate|].
  destruct (lower <? upper); discriminate.
Qed.

Lemma find_overlap_not_fuel img1 img2 :
  _find_overlap img1 img2 <> Raise LoopFuel.
Proof.
  unfold _find_overlap.
  induction (candidates img1 img2) as [|c rest IH]; [discriminate|].
  cbn [scan_overlaps]. unfold strips_match.
  destruct (crop img1 _) as [s1|e] eqn:H1; cbn [rbind].
  - destruct (crop img2 _) as [s2|e] eqn:H2; cbn [rbind].
    + destruct (_images_match s1 s2); [discriminate|exact IH].
    + intros H. inversion H; subst. exact (crop_not_fuel _ _ H2).
  - intros H. inversion H; subst. exact (crop_not_fuel _ _ H1).
Qed.

Lemma stitch_parts_not_fuel rest :
  forall prev, stitch_parts prev rest <> Raise LoopFuel.
Proof.
  induction rest as [|curr rest IH]; intros prev; [discriminate|].
  cbn [stitch_parts].
  destruct (_find_overlap prev curr) as [o|e] eqn:Ho; cbn [rbind].
  2: { intros H. inversion H; subst. exact (find_overlap_not_fuel _ _ Ho). }
  destruct (if 0 <? o then _ else _) as [part|e] eqn:Hp; cbn [rbind].
  2: { intros H. inversion H; subst. destruct (0 <? o); [|discriminate].
       exact (crop_not_fuel _ _ Hp). }
  destruct (stitch_parts curr rest) as [parts|e] eqn:Hs; cbn [rbind];
    [discriminate|].
  intros H. inversion H; subst. exact (IH curr Hs).
Qed.

Lemma stitch_images_not_fuel imgs : _stitch_images imgs <> Raise LoopFuel.
Proof.
  destruct imgs as [|first [|second rest]]; try discriminate.
  unfold _stitch_images.
  destruct (stitch_parts first (second :: rest)) as [parts|e] eqn:Hs;
    cbn [rbind].
  2: { intros H. inversion H; subst. exact (stitch_parts_not_fuel _ _ Hs). }
  unfold new. destruct (_ || _); discriminate.
Qed.

(** [capture] gives its loop all the fuel it can use: [LoopFuel] never
    comes out of it unless the host threw it. *)
Lemma capture_fuelled {W} (host : Host W) hash max_scrolls :
  fuelled (capture host hash max_scrolls).
Proof.
  unfold capture, get_window_rect, _scroll_to_top, key, time_sleep,
    bring_window_to_front.
  repeat first
    [ apply fuelled_call
    | apply loop_fuelled; lia
    | apply fuelled_lift; apply stitch_images_not_fuel
    | apply fuelled_bind; [|intros ?]
    | match goal with
      | |- fuelled (let '(_, _) := ?x in _) => destruct x
      | |- fuelled (if ?b then _ else _) => destruct b
      | |- fuelled (match images ?me with _ => _ end) =>
          destruct (images me)
      | |- fuelled _ => apply fuelled_ok; intros ?; eexists; reflexivity
      end ].
Qed.

(** ** Runs on the scripted host *)






(** Two frames, given the overlap the locator finds between them. *)
Lemma stitch_two_frames (a b : Image) (o : Z) :
  valid_size a -> valid_size b -> _find_overlap a b = Ok o ->
  exists stitched,
    _stitch_images [a; b] = Ok stitched
    /\ height stitched = height a + (height b - o)
    /\ width stitched = width a.
Proof.
  intros Ha Hb Ho.
  destruct (stitch_images_size a [b]
              (Forall_cons _ Ha (Forall_cons _ Hb (Forall_nil _))))
    as [os [stitched [Hos [Hst [Hh Hw]]]]].
  exists stitched. split; [exact Hst|]. split; [|exact Hw].
  cbn [pair_overlaps] in Hos. rewrite Ho in Hos. cbn [rbind] in Hos.
  inversion Hos; subst os. rewrite Hh. cbn [contributed]. lia.
Qed.

(** ** The capture loop: what the specification claims *)

(** C3 as stated fails: when the grabber throws on its third call, or
    the keyboard on the first Page Down, [capture] throws that
    exception; the frames stored so far are not stitched and returned. *)
Lemma exception_aborts_capture_counterexample :
  outcome run_grab_throws = Raise (OSError 7)
  /\ images (self (final run_grab_throws)) = [small1; small2]
  /\ (exists stitched, _stitch_images [small1; small2] = Ok stitched
                       /\ outcome run_grab_throws <> Ok (Some stitched))
  /\ outcome run_key_throws = Raise (OSError 5)
  /\ images (self (final run_key_throws)) = [small1]
  /\ outcome run_key_throws <> Ok (Some small1).
Proof.
  assert (H1 : outcome run_grab_throws = Raise (OSError 7))
    by (vm_compute; reflexivity).
  assert (H2 : outcome run_key_throws = Raise (OSError 5))
    by (vm_compute; reflexivity).
  split; [exact H1|]. split; [vm_compute; reflexivity|].
  split.
  { destruct (stitch_two_frames small1 small2 0) as [st [Hst _]];
      [split; simpl; lia|split; simpl; lia|reflexivity|].
    exists st. split; [exact Hst|]. rewrite H1. discriminate. }
  split; [exact H2|]. split; [vm_compute; reflexivity|].
  rewrite H2. discriminate.
Qed.

(** C3 (amended): an exception thrown by the grabber, the keyboard or
    any other host call during [capture] leaves [capture] as that
    exception; no image is returned, and the store keeps what it held
    plus the frames added before the throw. *)
Theorem thrown_exception_leaves_capture {W} (host : Host W)
        (hash : list byte -> Z) (max_scrolls : Z) (s : State W) (e : exn) :
  In (Threw e) (events (capture host hash max_scrolls s)) ->
  outcome (capture host hash max_scrolls s) = Raise e
  /\ (forall img, outcome (capture host hash max_scrolls s)
                  <> Ok (Some img))
  /\ exists more,
       images (self (final (capture host hash max_scrolls s)))
       = images (self s) ++ more.
Proof.
  intros Hin.
  pose proof (capture_propagates host hash max_scrolls s e Hin) as Hout.
  split; [exact Hout|]. split; [intros img; rewrite Hout; discriminate|].
  destruct (capture_grows host hash max_scrolls s) as [more [Hm _]].
  exists more. exact Hm.
Qed.

Lemma thrown_exception_leaves_capture_witness :
  In (Threw (OSError 7))
     (events (capture sim_host poly_hash 50 state_grab_throws))
  /\ outcome (capture sim_host poly_hash 50 state_grab_throws)
     = Raise (OSError 7).
Proof.
  assert (H : In (Threw (OSError 7))
                 (events (capture sim_host poly_hash 50 state_grab_throws))).
  { vm_compute. repeat (first [left; reflexivity | right]). }
  split; [exact H|].
  exact (proj1 (thrown_exception_leaves_capture
                  sim_host poly_hash 50 state_grab_throws (OSError 7) H)).
Defined.

(** C4 as stated fails: the rectangle is queried once, before the
    loop.  With a window that moves 10 pixels at every Page Down, the
    second and third grabs still cover the rectangle read at the start,
    while the window has moved on. *)
Lemma rect_requery_counterexample :
  grabs_requery None (events run_drifting) = false
  /\ rect_queries (events run_drifting) = [(0, 0, 8, 4)]
  /\ grab_regions (events run_drifting)
     = [(0, 0, 8, 4); (0, 0, 8, 4); (0, 0, 8, 4)]
  /\ bounds (world (final run_drifting)) = mkRECT 20 0 28 4.
Proof. vm_compute. repeat split; reflexivity. Qed.

(** C4 (amended): [capture] reads the window rectangle at most once,
    before the loop, and every frame of the run is grabbed over that
    one rectangle. *)
Theorem rect_read_once_before_loop {W} (host : Host W)
        (hash : list byte -> Z) (max_scrolls : Z) (s : State W) :
  (length (rect_queries (events (capture host hash max_scrolls s))) <= 1)%nat
  /\ forall region,
       In region (grab_regions (events (capture host hash max_scrolls s))) ->
       rect_queries (events (capture host hash max_scrolls s)) = [region].
Proof. exact (capture_one_query host hash max_scrolls s). Qed.

(** C6 as stated fails: [capture] never empties [self.images].  A
    second call on the same object stitches the first call's frame
    above its own; a new object in the same world returns the second
    frame alone. *)
Lemma store_discarded_counterexample :
  outcome first_call = Ok (Some small1)
  /\ images (self (final first_call)) = [small1]
  /\ images (self (final second_call)) = [small1; small2]
  /\ (exists out, outcome second_call = Ok (Some out) /\ height out = 8)
  /\ outcome fresh_call = Ok (Some small2)
  /\ height small2 = 4.
Proof.
  split; [vm_compute; reflexivity|]. split; [vm_compute; reflexivity|].
  split; [vm_compute; reflexivity|].
  split; [|split; [vm_compute; reflexivity|reflexivity]].
  destruct (outcome second_call) as [[out|]|e] eqn:H;
    try (vm_compute in H; discriminate).
  exists out. split; [reflexivity|].
  assert (Hh : match outcome second_call with
               | Ok (Some i) => height i
               | _ => 0
               end = 8) by (vm_compute; reflexivity).
  rewrite H in Hh. exact Hh.
Qed.

(** C6 (amended): the store belongs to the object and outlives the
    call: [capture] only appends to [self.images], and what it returns
    is the stitch of the whole store, frames of earlier calls on the
    same object included.  Only a newly made object has an empty
    store. *)
Theorem store_kept_across_calls {W} (host : Host W)
        (hash : list byte -> Z) (max_scrolls : Z) (s : State W) :
  (exists more,
     images (self (final (capture host hash max_scrolls s)))
     = images (self s) ++ more)
  /\ (forall out,
        outcome (capture host hash max_scrolls s) = Ok (Some out) ->
        _stitch_images
          (images (self (final (capture host hash max_scrolls s))))
        = Ok out)
  /\ images (__init__ (hwnd (self s))) = [].
Proof.
  split; [|split; [|reflexivity]].
  - destruct (capture_grows host hash max_scrolls s) as [more [Hm _]].
    exists more. exact Hm.
  - intros out Hout.
    destruct (capture_ok_inv host hash max_scrolls s _ Hout)
      as [rect [s0 [_ [_ Hstore]]]].
    destruct (images (self (final _))) as [|first rest];
      [discriminate|].
    destruct Hstore as [stitched [Hst Hsome]].
    inversion Hsome; subst. exact Hst.
Qed.

(** C8: the stop decision reads only the first 10000 bytes of a frame.
    When the frame just grabbed agrees on them with the frame stored
    before it, the loop stops there and drops the new frame, whatever
    lies beyond the prefix; and against any earlier fingerprint the two
    frames get the same verdict. *)
Theorem duplicate_verdict_reads_prefix_only {W} (host : Host W)
        (hash : list byte -> Z) (fuel : nat) (max_scrolls : Z)
        (rect : Rect) (scroll_count : Z) (s : State W)
        (previous img : Image) (shot : ScreenShot) (w1 : W) :
  scroll_count < max_scrolls ->
  grab host rect (world s) = (Ok shot, w1) ->
  frombytes (shot_width shot, shot_height shot) (rgb shot) = Ok img ->
  firstn prefix_len (tobytes img) = firstn prefix_len (tobytes previous) ->
  capture_loop host hash (S fuel) max_scrolls rect
               (Some (fingerprint hash previous)) scroll_count s
  = (Ok tt, mkState (self s) w1, [Grab rect])
  /\ forall earlier,
       hash_eq (fingerprint hash img) earlier
       = hash_eq (fingerprint hash previous) earlier.
Proof.
  intros Hlt Hgrab Hfrom Hprefix.
  assert (Hfp : fingerprint hash img = fingerprint hash previous)
    by (unfold fingerprint; rewrite Hprefix; reflexivity).
  split; [|intros earlier; rewrite Hfp; reflexivity].
  apply (loop_step_stop host hash fuel max_scrolls rect _ scroll_count s
                        shot img w1 Hlt Hgrab Hfrom).
  rewrite Hfp. unfold hash_eq. apply Z.eqb_refl.
Qed.

Lemma duplicate_verdict_reads_prefix_only_witness :
  tobytes tail_changed <> tobytes frame1
  /\ capture_loop sim_host poly_hash 1 50 (0, 0, 100, 300)
                  (Some (fingerprint poly_hash frame1)) 1 state_tail_changed
     = (Ok tt, mkState (self state_tail_changed) (world (sim_start [])),
        [Grab (0, 0, 100, 300)]).
Proof.
  split.
  - intros H. apply (f_equal (fun l => nth (Z.to_nat 12000) l x00)) in H.
    vm_compute in H. discriminate.
  - assert (Hgrab : grab sim_host (0, 0, 100, 300) (world state_tail_changed)
                    = (Ok (shot_of tail_changed), world (sim_start [])))
      by reflexivity.
    assert (Hprefix : firstn prefix_len (tobytes tail_changed)
                      = firstn prefix_len (tobytes frame1))
      by (vm_compute; reflexivity).
    exact (proj1 (duplicate_verdict_reads_prefix_only
                    sim_host poly_hash 0 50 (0, 0, 100, 300) 1
                    state_tail_changed frame1 tail_changed
                    (shot_of tail_changed) (world (sim_start []))
                    ltac:(lia) Hgrab
                    (frombytes_shot_of tail_changed
                       (wf_build 100 300 _ ltac:(lia) ltac:(lia)))
                    Hprefix)).
Defined.

(** C9 as stated fails: the first grab returns normally and its frame
    is stored, but the second grab throws, so [capture] throws and
    returns no image. *)
Lemma first_frame_then_throw_counterexample :
  script (world (sim_state [Ok (shot_of small1); Raise (OSError 7)]
                           0 None))
  = [Ok (shot_of small1); Raise (OSError 7)]
  /\ images (self (final run_second_grab_throws)) = [small1]
  /\ outcome run_second_grab_throws = Raise (OSError 7)
  /\ ~ (exists img, outcome run_second_grab_throws = Ok (Some img)).
Proof.
  assert (H : outcome run_second_grab_throws = Raise (OSError 7))
    by (vm_compute; reflexivity).
  split; [reflexivity|]. split; [vm_compute; reflexivity|].
  split; [exact H|]. intros [img Himg]. rewrite H in Himg. discriminate.
Qed.

(** C9 (amended): with [max_scrolls >= 1], [capture] never returns the
    empty result: the [None] sentinel equals no fingerprint, so a first
    grab that returns normally has its frame appended to the store, and
    [capture] then returns an image or leaves by an exception. *)
Theorem first_frame_always_stored {W} (host : Host W)
        (hash : list byte -> Z) (max_scrolls : Z) (s : State W) :
  1 <= max_scrolls ->
  outcome (capture host hash max_scrolls s) <> Ok None
  /\ (forall current_hash, hash_eq current_hash None = false)
  /\ (forall rect s0 shot w1 img,
        grab host rect (world s0) = (Ok shot, w1) ->
        frombytes (shot_width shot, shot_height shot) (rgb shot) = Ok img ->
        exists more,
          images (self (final (capture_loop host hash
                                 (Z.to_nat max_scrolls) max_scrolls rect
                                 None 0 s0)))
          = images (self s0) ++ img :: more)
  /\ ((exists img, outcome (capture host hash max_scrolls s)
                   = Ok (Some img))
      \/ exists e, outcome (capture host hash max_scrolls s) = Raise e).
Proof.
  intros Hmax.
  pose proof (capture_never_none host hash max_scrolls s Hmax) as Hnone.
  split; [exact Hnone|]. split; [reflexivity|]. split.
  - intros rect s0 shot w1 img Hgrab Hfrom.
    destruct (Z.to_nat max_scrolls) as [|fuel] eqn:Hfuel; [lia|].
    apply (first_frame_stored host hash fuel max_scrolls rect s0 shot img
                              w1 ltac:(lia) Hgrab Hfrom).
  - destruct (outcome (capture host hash max_scrolls s)) as [[img|]|e].
    + left. exists img. reflexivity.
    + exfalso. apply Hnone. reflexivity.
    + right. exists e. reflexivity.
Qed.

Lemma first_frame_always_stored_witness :
  1 <= 50
  /\ outcome (capture sim_host poly_hash 50 state_two_calls) <> Ok None.
Proof.
  assert (H : 1 <= 50) by lia.
  split; [exact H|].
  exact (proj1 (first_frame_always_stored
                  sim_host poly_hash 50 state_two_calls H)).
Defined.

(** * Further properties of the code *)

(** ** [_images_match] *)

Lemma byte_eqb_refl (x : byte) : Byte.eqb x x = true.
Proof. apply Byte.byte_dec_lb. reflexivity. Qed.

Lemma byte_eqb_sym (x y : byte) : Byte.eqb x y = Byte.eqb y x.
Proof.
  destruct (Byte.eqb x y) eqn:Hxy.
  - apply Byte.byte_dec_bl in Hxy. subst. symmetry. apply byte_eqb_refl.
  - destruct (Byte.eqb y x) eqn:Hyx; [|reflexivity].
    apply Byte.byte_dec_bl in Hyx. subst.
    rewrite byte_eqb_refl in Hxy. discriminate.
Qed.

Lemma count_equal_refl (l : list byte) :
  count_equal l l = Z.of_nat (length l).
Proof.
  induction l as [|x l IH]; [reflexivity|].
  cbn [count_equal length]. rewrite byte_eqb_refl, IH. lia.
Qed.

Lemma count_equal_sym (a : list byte) :
  forall b, count_equal a b = count_equal b a.
Proof.
  induction a as [|x a IH]; intros [|y b]; try reflexivity.
  cbn [count_equal]. rewrite byte_eqb_sym, IH. reflexivity.
Qed.

Lemma length_tobytes (img : Image) :
  wf img ->
  Z.of_nat (length (tobytes img)) = 3 * width img * height img.
Proof.
  intros [[Hw Hh] [Hrows Hcols]]. unfold tobytes.
  rewrite (length_rows_bytes _ _ Hcols), Hrows. lia.
Qed.

Lemma size_eqb_sym (a b : Image) : size_eqb a b = size_eqb b a.
Proof.
  unfold size_eqb. rewrite (Z.eqb_sym (width a)), (Z.eqb_sym (height a)).
  reflexivity.
Qed.

(** X1: the comparison does not depend on the order of its arguments. *)
Theorem images_match_symmetric (img1 img2 : Image) :
  wf img1 -> wf img2 ->
  _images_match img1 img2 = _images_match img2 img1.
Proof.
  intros H1 H2. unfold _images_match. rewrite (size_eqb_sym img2 img1).
  destruct (size_eqb img1 img2) eqn:Hsize; [|reflexivity]. cbn [negb].
  unfold size_eqb in Hsize. apply andb_true_iff in Hsize.
  destruct Hsize as [Hw Hh]. apply Z.eqb_eq in Hw, Hh.
  rewrite (count_equal_sym (tobytes img2)).
  rewrite (length_tobytes _ H1), (length_tobytes _ H2), Hw, Hh.
  reflexivity.
Qed.

Lemma images_match_symmetric_witness :
  wf small1 /\ wf small2
  /\ _images_match small1 small2 = _images_match small2 small1.
Proof.
  assert (H1 : wf small1) by (apply wf_view; lia).
  assert (H2 : wf small2) by (apply wf_view; lia).
  split; [exact H1|]. split; [exact H2|].
  exact (images_match_symmetric small1 small2 H1 H2).
Defined.

(** X2: an image matches itself exactly when it has pixels: on an empty
    array the ratio is 0/0, and the comparison with the threshold is
    false. *)
Theorem images_match_self (img : Image) :
  wf img ->
  _images_match img img = (0 <? width img) && (0 <? height img).
Proof.
  intros Hwf. pose proof (length_tobytes img Hwf) as Hlen.
  destruct Hwf as [[Hw Hh] _].
  unfold _images_match, size_eqb. rewrite !Z.eqb_refl. cbn [andb negb].
  rewrite count_equal_refl. unfold meets_threshold. rewrite Hlen.
  destruct (Z.ltb_spec 0 (width img)); destruct (Z.ltb_spec 0 (height img));
    cbn [andb].
  - destruct (Z.ltb_spec 0 (3 * width img * height img)); [|nia].
    apply Z.leb_le. nia.
  - destruct (Z.ltb_spec 0 (3 * width img * height img)); [nia|].
    reflexivity.
  - destruct (Z.ltb_spec 0 (3 * width img * height img)); [nia|].
    reflexivity.
  - destruct (Z.ltb_spec 0 (3 * width img * height img)); [nia|].
    reflexivity.
Qed.

Lemma images_match_self_witness :
  wf (view 0 50 0)
  /\ _images_match (view 0 50 0) (view 0 50 0) = false
  /\ _images_match small1 small1 = true.
Proof.
  assert (H0 : wf (view 0 50 0)) by (apply wf_view; lia).
  assert (H1 : wf small1) by (apply wf_view; lia).
  split; [exact H0|]. split.
  - exact (images_match_self (view 0 50 0) H0).
  - exact (images_match_self small1 H1).
Defined.

(** Images of different sizes never match. *)
Lemma images_match_sizes (img1 img2 : Image) :
  _images_match img1 img2 = true ->
  width img1 = width img2 /\ height img1 = height img2.
Proof.
  unfold _images_match, size_eqb.
  destruct (width img1 =? width img2) eqn:Hw;
    destruct (height img1 =? height img2) eqn:Hh;
    cbn [andb negb]; try discriminate.
  intros _. split; apply Z.eqb_eq; assumption.
Qed.

(** ** [_find_overlap]: what it finds and what it cannot find *)

Lemma build_ext (w h : Z) (f g : Z -> Z -> pixel) :
  (forall x y, 0 <= x < w -> 0 <= y < h -> f x y = g x y) ->
  build w h f = build w h g.
Proof.
  intros H. unfold build. f_equal.
  apply map_ext_in. intros y Hy. apply In_zseq in Hy.
  apply map_ext_in. intros x Hx. apply In_zseq in Hx.
  apply H; lia.
Qed.

Lemma sample_half_nonneg (img1 : Image) :
  0 <= width img1 -> 0 <= sample_width img1 / 2.
Proof.
  intros Hw. apply Z.div_pos; [|lia]. unfold sample_width.
  assert (0 <= width img1 / 4) by (apply Z.div_pos; lia). lia.
Qed.

(** The two strips of one pass, as the code cuts them. *)
Lemma strips_match_unfold (img1 img2 : Image) (overlap : Z) :
  0 <= width img1 ->
  let x0 := sample_x img1 - sample_width img1 / 2 in
  let x1 := sample_x img1 + sample_width img1 / 2 in
  strips_match img1 img2 (sample_x img1) (sample_width img1) overlap
  = Ok (_images_match
          (build (x1 - x0) (height img1 - overlap + strip_height
                            - (height img1 - overlap))
                 (fun x y => getpixel img1 (x0 + x)
                                      (height img1 - overlap + y)))
          (build (x1 - x0) (strip_height - 0)
                 (fun x y => getpixel img2 (x0 + x) (0 + y)))).
Proof.
  intros Hw x0 x1. pose proof (sample_half_nonneg img1 Hw).
  unfold strips_match, strip_height.
  rewrite !crop_ok by (subst x0 x1; lia). reflexivity.
Qed.

(** X3: frames narrower than 8 pixels: the sample window [width // 4 // 2]
    columns either side of the middle is empty, no strip ever matches,
    and the locator answers 0 whatever the frames show. *)
Theorem narrow_frames_never_overlap (img1 img2 : Image) :
  0 <= width img1 < 8 ->
  _find_overlap img1 img2 = Ok 0.
Proof.
  intros [Hw Hlt].
  assert (Hhalf : sample_width img1 / 2 = 0).
  { unfold sample_width.
    assert (width img1 / 4 < 2) by (apply Z.div_lt_upper_bound; lia).
    assert (0 <= width img1 / 4) by (apply Z.div_pos; lia).
    apply Z.div_small. lia. }
  destruct (find_overlap_spec img1 img2 Hw) as [o [Ho Hcase]].
  rewrite Ho. destruct Hcase as [[-> _]|[_ [Hmatch _]]]; [reflexivity|].
  exfalso. rewrite (strips_match_unfold img1 img2 o Hw) in Hmatch.
  rewrite Hhalf in Hmatch.
  replace (sample_x img1 + 0 - (sample_x img1 - 0)) with 0 in Hmatch by lia.
  unfold _images_match, build, strip_height in Hmatch.
  cbn [size_eqb width height] in Hmatch.
  unfold size_eqb in Hmatch. cbn [width height] in Hmatch.
  rewrite Z.eqb_refl in Hmatch.
  replace (height img1 - o + 50 - (height img1 - o) =? 50 - 0) with true
    in Hmatch by (symmetry; apply Z.eqb_eq; lia).
  cbn [andb negb] in Hmatch.
  unfold tobytes in Hmatch. cbn [rows Z.to_nat zseq map] in Hmatch.
  assert (Hnil : forall (A : Type) (l : list A),
             flat_map (flat_map pixel_bytes) (map (fun _ => []) l) = []).
  { intros A l. induction l; [reflexivity|exact IHl]. }
  rewrite !Hnil in Hmatch. discriminate.
Qed.

Lemma narrow_frames_never_overlap_witness :
  0 <= width (view 7 400 0) < 8
  /\ _find_overlap (view 7 400 0) (view 7 400 0) = Ok 0.
Proof.
  assert (H : 0 <= width (view 7 400 0) < 8) by (simpl; lia).
  split; [exact H|].
  exact (narrow_frames_never_overlap (view 7 400 0) (view 7 400 0) H).
Defined.

(** X4: if the top strip of [img2] equals, pixel for pixel over the sampled
    columns, the strip of [img1] that starts [o] rows above its bottom,
    and [o] is one of the offsets the scan visits, the locator finds an
    overlap, and never a larger one than [o]. *)
Theorem exact_overlap_is_found (img1 img2 : Image) (o : Z) :
  8 <= width img1 ->
  In o (candidates img1 img2) ->
  (forall x y,
      sample_x img1 - sample_width img1 / 2 <= x
      < sample_x img1 + sample_width img1 / 2 ->
      0 <= y < strip_height ->
      getpixel img1 x (height img1 - o + y) = getpixel img2 x y) ->
  exists found, _find_overlap img1 img2 = Ok found /\ 50 <= found <= o.
Proof.
  intros Hw Hin Hsame.
  assert (Hw0 : 0 <= width img1) by lia.
  assert (Hhalf : 1 <= sample_width img1 / 2).
  { unfold sample_width.
    assert (2 <= width img1 / 4) by (apply Z.div_le_lower_bound; lia).
    apply Z.div_le_lower_bound; lia. }
  assert (Hmatch : strips_match img1 img2 (sample_x img1)
                                (sample_width img1) o = Ok true).
  { rewrite (strips_match_unfold img1 img2 o Hw0). f_equal.
    set (x0 := sample_x img1 - sample_width img1 / 2).
    set (x1 := sample_x img1 + sample_width img1 / 2).
    replace (height img1 - o + strip_height - (height img1 - o))
      with (strip_height - 0) by lia.
    rewrite (build_ext (x1 - x0) (strip_height - 0)
               (fun x y => getpixel img1 (x0 + x) (height img1 - o + y))
               (fun x y => getpixel img2 (x0 + x) (0 + y))).
    2: { intros x y Hx Hy. cbn beta. rewrite Hsame; [reflexivity| |];
         subst x0 x1; unfold strip_height in *; lia. }
    rewrite images_match_self
      by (apply wf_build; subst x0 x1; unfold strip_height; lia).
    cbn [width height build]. subst x0 x1. unfold strip_height.
    apply andb_true_iff. split; apply Z.ltb_lt; lia. }
  destruct (find_overlap_spec img1 img2 Hw0) as [found [Hf Hcase]].
  exists found. split; [exact Hf|].
  destruct Hcase as [[-> Hnone]|[Hfin [_ Hless]]].
  - rewrite (Hnone o Hin) in Hmatch. discriminate.
  - apply candidates_range in Hfin. destruct Hfin as [k [Hk [-> _]]].
    split; [lia|].
    destruct (Z.le_gt_cases (50 + 10 * k) o) as [Hle|Hgt]; [exact Hle|].
    rewrite (Hless o Hin ltac:(lia)) in Hmatch. discriminate.
Qed.

(** ** Pixels of built images *)

Lemma nth_zseq (n : nat) : forall l i d,
  (i < n)%nat -> nth i (zseq l n) d = l + Z.of_nat i.
Proof.
  induction n as [|n IH]; intros l i d Hi; [lia|].
  destruct i as [|i]; cbn [zseq nth]; [lia|].
  rewrite IH by lia. lia.
Qed.

Lemma nth_map_zseq {A} (f : Z -> A) (n : nat) (l : Z) (i : nat) (d : A) :
  (i < n)%nat -> nth i (map f (zseq l n)) d = f (l + Z.of_nat i).
Proof.
  intros Hi.
  rewrite (nth_indep _ d (f 0))
    by (rewrite length_map, length_zseq; exact Hi).
  rewrite map_nth. rewrite (nth_zseq n l i 0 Hi). reflexivity.
Qed.

Lemma nth_nth_build (w h : Z) (f : Z -> Z -> pixel) (i j : nat) :
  (i < Z.to_nat h)%nat -> (j < Z.to_nat w)%nat ->
  nth j (nth i (rows (build w h f)) []) black
  = f (Z.of_nat j) (Z.of_nat i).
Proof.
  intros Hi Hj. unfold build. cbn [rows].
  rewrite (nth_map_zseq _ _ 0 i [] Hi).
  rewrite (nth_map_zseq _ _ 0 j black Hj). reflexivity.
Qed.

Lemma getpixel_build (w h : Z) (f : Z -> Z -> pixel) (x y : Z) :
  0 <= x < w -> 0 <= y < h -> getpixel (build w h f) x y = f x y.
Proof.
  intros Hx Hy. unfold getpixel.
  change (width (build w h f)) with w. change (height (build w h f)) with h.
  destruct (Z.leb_spec 0 x); [|lia]. destruct (Z.ltb_spec x w); [|lia].
  destruct (Z.leb_spec 0 y); [|lia]. destruct (Z.ltb_spec y h); [|lia].
  cbn [andb]. rewrite nth_nth_build by lia.
  rewrite !Z2Nat.id by lia. reflexivity.
Qed.

Lemma getpixel_nat (img : Image) (i j : nat) :
  (i < Z.to_nat (height img))%nat -> (j < Z.to_nat (width img))%nat ->
  getpixel img (Z.of_nat j) (Z.of_nat i)
  = nth j (nth i (rows img) []) black.
Proof.
  intros Hi Hj. unfold getpixel.
  destruct (Z.leb_spec 0 (Z.of_nat j)); [|lia].
  destruct (Z.ltb_spec (Z.of_nat j) (width img)); [|lia].
  destruct (Z.leb_spec 0 (Z.of_nat i)); [|lia].
  destruct (Z.ltb_spec (Z.of_nat i) (height img)); [|lia].
  cbn [andb]. rewrite !Nat2Z.id. reflexivity.
Qed.

Lemma exact_overlap_is_found_witness :
  8 <= width frame1
  /\ In 80 (candidates frame1 frame2)
  /\ exists found, _find_overlap frame1 frame2 = Ok found
                   /\ 50 <= found <= 80.
Proof.
  assert (Hw : 8 <= width frame1) by (simpl; lia).
  assert (Hin : In 80 (candidates frame1 frame2)).
  { apply candidates_range. exists 3.
    assert (H150 : max_overlap frame1 frame2 = 150) by reflexivity.
    rewrite H150. lia. }
  split; [exact Hw|]. split; [exact Hin|].
  apply (exact_overlap_is_found frame1 frame2 80 Hw Hin).
  intros x y Hx Hy.
  change (sample_x frame1 - sample_width frame1 / 2) with 38 in Hx.
  change (sample_x frame1 + sample_width frame1 / 2) with 62 in Hx.
  unfold strip_height in Hy.
  change (height frame1) with 300.
  unfold frame1, frame2, view.
  rewrite !getpixel_build by lia. f_equal; lia.
Defined.

(** ** The stitcher: size and content of its result *)

Lemma pair_overlaps_bounds (rest : list Image) :
  forall prev overlaps,
    Forall valid_size (prev :: rest) ->
    pair_overlaps prev rest = Ok overlaps ->
    0 <= contributed rest overlaps <= total_height rest
    /\ forall f, In f rest ->
                 height f <= height prev + contributed rest overlaps.
Proof.
  induction rest as [|curr rest IH]; intros prev overlaps Hall Hos.
  - cbn [contributed total_height fold_right]. split; [lia|intros f []].
  - inversion Hall as [|? ? [Hpw Hph] Hrest]; subst.
    assert (Hcurr : valid_size curr) by (inversion Hrest; assumption).
    destruct Hcurr as [_ Hch].
    destruct (find_overlap_bounds prev curr Hpw) as [o [Ho Hrange]].
    cbn [pair_overlaps] in Hos. rewrite Ho in Hos. cbn [rbind] in Hos.
    destruct (pair_overlaps curr rest) as [os|e] eqn:Hrec;
      cbn [rbind] in Hos; [|discriminate].
    inversion Hos; subst overlaps.
    destruct (IH curr os Hrest Hrec) as [[Hlo Hhi] Hmax].
    assert (Ho2 : 0 <= o /\ 2 * o <= height prev /\ 2 * o <= height curr).
    { destruct Hrange as [->|[Hlo' Hhi']]; [lia|].
      unfold max_overlap in Hhi'.
      pose proof (Z.mul_div_le (Z.min (height prev) (height curr)) 2
                               ltac:(lia)).
      lia. }
    cbn [contributed]. unfold total_height in *. cbn [fold_right].
    split; [lia|].
    intros f [<-|Hin]; [lia|]. specialize (Hmax f Hin). lia.
Qed.

(** X6: the stitched image is as wide as the first frame, at least as high
    as the highest frame and at most as high as all frames together. *)
Theorem stitched_size_bounds (first : Image) (rest : list Image) :
  Forall valid_size (first :: rest) ->
  exists stitched,
    _stitch_images (first :: rest) = Ok stitched
    /\ width stitched = width first
    /\ height stitched <= total_height (first :: rest)
    /\ forall f, In f (first :: rest) -> height f <= height stitched.
Proof.
  intros Hall.
  destruct (stitch_images_size first rest Hall)
    as [os [stitched [Hos [Hst [Hh Hw]]]]].
  destruct (pair_overlaps_bounds rest first os Hall Hos) as [[Hlo Hhi] Hmax].
  exists stitched. split; [exact Hst|]. split; [exact Hw|].
  unfold total_height in *. cbn [fold_right]. split; [lia|].
  intros f [<-|Hin]; [lia|]. specialize (Hmax f Hin). lia.
Qed.

Lemma stitched_size_bounds_witness :
  Forall valid_size [view 8 4 0; view 8 4 2; view 8 4 4]
  /\ exists stitched,
       _stitch_images [view 8 4 0; view 8 4 2; view 8 4 4] = Ok stitched
       /\ width stitched = width (view 8 4 0).
Proof.
  assert (H : Forall valid_size [view 8 4 0; view 8 4 2; view 8 4 4]).
  { repeat constructor; simpl; lia. }
  split; [exact H|].
  destruct (stitched_size_bounds (view 8 4 0) [view 8 4 2; view 8 4 4] H)
    as [stitched [Hst [Hw _]]].
  exists stitched. split; assumption.
Defined.

Lemma rows_ext (a b : list (list pixel)) (w : nat) :
  length a = length b ->
  Forall (fun r => length r = w) a ->
  Forall (fun r => length r = w) b ->
  (forall i j, (i < length a)%nat -> (j < w)%nat ->
               nth j (nth i a []) black = nth j (nth i b []) black) ->
  a = b.
Proof.
  intros Hlen Ha Hb Hpix.
  apply (nth_ext a b [] [] Hlen). intros i Hi.
  rewrite Forall_forall in Ha, Hb.
  assert (Hla : length (nth i a []) = w) by (apply Ha, nth_In, Hi).
  assert (Hlb : length (nth i b []) = w)
    by (apply Hb, nth_In; rewrite <- Hlen; exact Hi).
  apply (nth_ext _ _ black black); [congruence|].
  intros j Hj. apply Hpix; [exact Hi|lia].
Qed.

Lemma rows_build_length (w h : Z) (f : Z -> Z -> pixel) :
  length (rows (build w h f)) = Z.to_nat h
  /\ Forall (fun r => length r = Z.to_nat w) (rows (build w h f)).
Proof.
  split.
  - unfold build. cbn [rows]. rewrite length_map, length_zseq. reflexivity.
  - apply Forall_forall. intros r Hr. unfold build in Hr. cbn [rows] in Hr.
    apply in_map_iff in Hr. destruct Hr as [y [<- _]].
    rewrite length_map, length_zseq. reflexivity.
Qed.

Lemma Forall_skipn {A} (P : A -> Prop) (n : nat) (l : list A) :
  Forall P l -> Forall P (skipn n l).
Proof.
  intros H. rewrite <- (firstn_skipn n l) in H.
  apply Forall_app in H. tauto.
Qed.

Lemma Forall_firstn {A} (P : A -> Prop) (n : nat) (l : list A) :
  Forall P l -> Forall P (firstn n l).
Proof.
  intros H. rewrite <- (firstn_skipn n l) in H.
  apply Forall_app in H. tauto.
Qed.

(** Cropping the top [o] rows off a frame leaves its other rows. *)
Lemma crop_top_rows (curr : Image) (o : Z) :
  wf curr -> 0 <= o <= height curr ->
  rows (build (width curr - 0) (height curr - o)
              (fun x y => getpixel curr (0 + x) (o + y)))
  = skipn (Z.to_nat o) (rows curr).
Proof.
  intros [[Hw Hh] [Hrows Hcols]] Ho. rewrite Z.sub_0_r.
  destruct (rows_build_length (width curr) (height curr - o)
              (fun x y => getpixel curr (0 + x) (o + y))) as [Hbl Hbc].
  apply (rows_ext _ _ (Z.to_nat (width curr))).
  - rewrite Hbl, length_skipn, Hrows. lia.
  - exact Hbc.
  - apply Forall_skipn. exact Hcols.
  - intros i j Hi Hj. rewrite Hbl in Hi.
    rewrite nth_nth_build by lia. rewrite nth_skipn.
    replace (0 + Z.of_nat j) with (Z.of_nat j) by lia.
    replace (o + Z.of_nat i) with (Z.of_nat (Z.to_nat o + i)) by lia.
    apply getpixel_nat; lia.
Qed.

(** Pasting a frame as wide as the canvas replaces the rows it covers. *)
Lemma paste_rows (dst src : Image) (k : nat) :
  wf dst -> wf src -> width src = width dst ->
  Z.of_nat k + height src <= height dst ->
  rows (paste dst src (0, Z.of_nat k))
  = firstn k (rows dst) ++ rows src
    ++ skipn (k + Z.to_nat (height src)) (rows dst).
Proof.
  intros [[Hdw Hdh] [Hdrows Hdcols]] [[Hsw Hsh] [Hsrows Hscols]] Hwidth Hfit.
  unfold paste.
  match goal with
  | |- rows (build ?w ?h ?f) = _ =>
      destruct (rows_build_length w h f) as [Hbl Hbc]
  end.
  apply (rows_ext _ _ (Z.to_nat (width dst))); [| exact Hbc | |].
  - rewrite Hbl, !length_app, length_firstn, length_skipn, Hdrows, Hsrows.
    lia.
  - apply Forall_app. split; [apply Forall_firstn; exact Hdcols|].
    apply Forall_app. split; [rewrite <- Hwidth; exact Hscols|].
    apply Forall_skipn. exact Hdcols.
  - intros i j Hi Hj. rewrite Hbl in Hi.
    rewrite nth_nth_build by lia.
    destruct (Z.leb_spec 0 (Z.of_nat j)); [|lia].
    destruct (Z.ltb_spec (Z.of_nat j) (0 + width src)); [|lia].
    cbn [andb].
    destruct (Z.leb_spec (Z.of_nat k) (Z.of_nat i)) as [Hki|Hki];
      [destruct (Z.ltb_spec (Z.of_nat i) (Z.of_nat k + height src))
         as [Hin|Hout]|]; cbn [andb].
    + (* inside the pasted frame *)
      rewrite app_nth2 by (rewrite length_firstn; lia).
      rewrite length_firstn, Hdrows.
      replace (Init.Nat.min k (Z.to_nat (height dst))) with k by lia.
      rewrite app_nth1 by lia.
      replace (Z.of_nat j - 0) with (Z.of_nat j) by lia.
      replace (Z.of_nat i - Z.of_nat k) with (Z.of_nat (i - k)) by lia.
      apply getpixel_nat; lia.
    + (* below it *)
      rewrite app_nth2 by (rewrite length_firstn; lia).
      rewrite length_firstn, Hdrows.
      replace (Init.Nat.min k (Z.to_nat (height dst))) with k by lia.
      rewrite app_nth2 by lia. rewrite nth_skipn, Hsrows.
      replace (k + Z.to_nat (height src)
               + (i - k - Z.to_nat (height src)))%nat with i by lia.
      apply getpixel_nat; lia.
    + (* above it *)
      rewrite app_nth1 by (rewrite length_firstn; lia).
      rewrite nth_firstn.
      destruct (Nat.ltb_spec i k); [|lia].
      apply getpixel_nat; lia.
Qed.

Lemma firstn_prefix {A} (x y : list A) (n : nat) :
  length x = n -> firstn n (x ++ y) = x.
Proof.
  intros <-. rewrite firstn_app, Nat.sub_diag, firstn_all. cbn [firstn].
  apply app_nil_r.
Qed.

Lemma skipn_prefix {A} (x y : list A) (n m : nat) :
  length x = n -> skipn (n + m) (x ++ y) = skipn m y.
Proof.
  intros <-. rewrite skipn_app.
  rewrite skipn_all2 by lia.
  replace (length x + m - length x)%nat with m by lia. reflexivity.
Qed.

Lemma wf_paste (dst src : Image) (at_ : Z * Z) :
  wf dst ->
  wf (paste dst src at_) /\ width (paste dst src at_) = width dst
  /\ height (paste dst src at_) = height dst.
Proof.
  intros [[Hw Hh] _]. destruct at_ as [ox oy]. unfold paste.
  split; [apply wf_build; assumption|split; reflexivity].
Qed.

Lemma total_height_nonneg (parts : list Image) :
  Forall wf parts -> 0 <= total_height parts.
Proof.
  induction 1 as [|p parts [[_ Hh] _] _ IH]; unfold total_height in *;
    cbn [fold_right]; lia.
Qed.

(** The paste loop lays the parts one below the other. *)
Lemma paste_parts_rows (parts : list Image) :
  forall canvas k,
    wf canvas -> Forall wf parts ->
    Forall (fun p => width p = width canvas) parts ->
    Z.of_nat k + total_height parts <= height canvas ->
    rows (paste_parts canvas (Z.of_nat k) parts)
    = firstn k (rows canvas) ++ concat (map rows parts)
      ++ skipn (k + Z.to_nat (total_height parts)) (rows canvas).
Proof.
  induction parts as [|p parts IH]; intros canvas k Hc Hparts Hwidths Hfit.
  - cbn [paste_parts map concat total_height fold_right app Z.to_nat].
    rewrite Nat.add_0_r, firstn_skipn. reflexivity.
  - inversion Hparts as [|? ? Hp Hps]; subst.
    inversion Hwidths as [|? ? Hpw Hpsw]; subst.
    pose proof (total_height_nonneg parts Hps) as Hnn.
    assert (Hph : 0 <= height p) by (destruct Hp as [[_ H] _]; exact H).
    assert (Hth : total_height (p :: parts) = height p + total_height parts)
      by reflexivity.
    destruct (wf_paste canvas p (0, Z.of_nat k) Hc) as [Hc' [Hw' Hh']].
    cbn [paste_parts].
    replace (Z.of_nat k + height p)
      with (Z.of_nat (k + Z.to_nat (height p))) by lia.
    rewrite IH; [|exact Hc'|exact Hps| |].
    2: { rewrite Hw'. exact Hpsw. }
    2: { rewrite Hh'. lia. }
    rewrite (paste_rows canvas p k Hc Hp Hpw ltac:(lia)).
    assert (Hlen1 : length (firstn k (rows canvas)) = k).
    { rewrite length_firstn. destruct Hc as [_ [Hrows _]]. lia. }
    assert (Hlen2 : length (rows p) = Z.to_nat (height p))
      by (destruct Hp as [_ [H _]]; exact H).
    rewrite (app_assoc (firstn k (rows canvas))).
    rewrite firstn_prefix by (rewrite length_app; lia).
    rewrite skipn_prefix by (rewrite length_app; lia).
    rewrite skipn_skipn. cbn [map concat]. rewrite <- !app_assoc.
    f_equal. f_equal. f_equal. f_equal. rewrite Hth. lia.
Qed.

Lemma stitch_parts_rows (rest : list Image) :
  forall prev,
    Forall wf (prev :: rest) ->
    Forall (fun f => width f = width prev) rest ->
    exists overlaps parts,
      pair_overlaps prev rest = Ok overlaps
      /\ stitch_parts prev rest = Ok parts
      /\ Forall wf parts
      /\ Forall (fun p => width p = width prev) parts
      /\ concat (map rows parts) = kept_rows rest overlaps.
Proof.
  induction rest as [|curr rest IH]; intros prev Hall Hwidths.
  - exists [], []. repeat split; constructor.
  - inversion Hall as [|? ? Hprev Hrest]; subst.
    inversion Hwidths as [|? ? Hcw Hrw]; subst.
    assert (Hcurr : wf curr) by (inversion Hrest; assumption).
    destruct Hprev as [[Hpw Hph] _].
    destruct (find_overlap_bounds prev curr Hpw) as [o [Ho Hrange]].
    destruct (IH curr Hrest) as [os [parts [Hos [Hparts [Hwf [Hws Hrows]]]]]].
    { rewrite Hcw. exact Hrw. }
    rewrite Hcw in Hws.
    assert (Hch : 0 <= height curr) by (destruct Hcurr as [[_ H] _]; exact H).
    assert (Hcw0 : 0 <= width curr) by (destruct Hcurr as [[H _] _]; exact H).
    assert (Hle : o = 0 \/ 0 < o <= height curr).
    { destruct Hrange as [->|[Hlo Hhi]]; [left; reflexivity|right].
      unfold max_overlap in Hhi.
      pose proof (Z.mul_div_le (Z.min (height prev) (height curr)) 2
                               ltac:(lia)).
      lia. }
    cbn [pair_overlaps stitch_parts]. rewrite Ho. cbn [rbind].
    rewrite Hos. cbn [rbind].
    destruct Hle as [->|[Hlo Hhi]].
    + change (0 <? 0) with false. cbn [rbind]. rewrite Hparts. cbn [rbind].
      exists (0 :: os), (curr :: parts).
      split; [reflexivity|]. split; [reflexivity|].
      split; [constructor; assumption|].
      split; [constructor; assumption|].
      cbn [map concat kept_rows Z.to_nat skipn]. rewrite Hrows. reflexivity.
    + destruct (Z.ltb_spec 0 o); [|lia].
      rewrite crop_ok by lia. cbn [rbind]. rewrite Hparts. cbn [rbind].
      eexists (o :: os), (_ :: parts).
      split; [reflexivity|]. split; [reflexivity|].
      split; [constructor; [apply wf_build; lia|exact Hwf]|].
      split; [constructor; [cbn [width build]; lia|exact Hws]|].
      cbn [map concat kept_rows]. rewrite Hrows.
      rewrite (crop_top_rows curr o Hcurr ltac:(lia)). reflexivity.
Qed.

(** X7: frames of one width are stitched seamlessly: the result consists of
    the rows of the first frame followed, frame by frame, by the rows
    of each later frame below its overlap, and nothing else. *)
Theorem stitched_rows (first : Image) (rest : list Image) :
  Forall wf (first :: rest) ->
  Forall (fun f => width f = width first) rest ->
  exists overlaps stitched,
    pair_overlaps first rest = Ok overlaps
    /\ _stitch_images (first :: rest) = Ok stitched
    /\ rows stitched = rows first ++ kept_rows rest overlaps
    /\ tobytes stitched
       = tobytes first
         ++ flat_map (flat_map pixel_bytes) (kept_rows rest overlaps).
Proof.
  intros Hall Hwidths.
  destruct (stitch_parts_rows rest first Hall Hwidths)
    as [os [parts [Hos [Hparts [Hwf [Hws Hrows]]]]]].
  assert (Hfirst : wf first) by (inversion Hall; assumption).
  exists os.
  assert (Hgoal : exists stitched,
             _stitch_images (first :: rest) = Ok stitched
             /\ rows stitched = rows first ++ kept_rows rest os).
  { destruct rest as [|second rest].
    - exists first. cbn [pair_overlaps] in Hos. inversion Hos; subst.
      split; [reflexivity|]. cbn [kept_rows]. rewrite app_nil_r.
      reflexivity.
    - unfold _stitch_images. rewrite Hparts. cbn [rbind].
      assert (Hallp : Forall wf (first :: parts))
        by (constructor; assumption).
      pose proof (total_height_nonneg _ Hallp) as Hth.
      destruct Hfirst as [[Hfw Hfh] Hfrows].
      rewrite (new_ok _ _ Hfw Hth). cbn [rbind].
      eexists. split; [reflexivity|].
      change 0 with (Z.of_nat 0) at 1.
      rewrite paste_parts_rows;
        [|apply wf_build; assumption|exact Hallp| |cbn [height build]; lia].
      2: { constructor; [reflexivity|exact Hws]. }
      destruct (rows_build_length (width first)
                  (total_height (first :: parts)) (fun _ _ => black))
        as [Hbl _].
      cbn [firstn app Nat.add]. rewrite skipn_all2 by lia.
      rewrite app_nil_r. cbn [map concat]. rewrite Hrows. reflexivity. }
  destruct Hgoal as [stitched [Hst Hr]].
  exists stitched. split; [exact Hos|]. split; [exact Hst|].
  split; [exact Hr|]. unfold tobytes. rewrite Hr, flat_map_app.
  reflexivity.
Qed.

Lemma stitched_rows_witness :
  Forall wf [frame1; frame2]
  /\ Forall (fun f => width f = width frame1) [frame2]
  /\ exists stitched,
       _stitch_images [frame1; frame2] = Ok stitched
       /\ rows stitched = rows frame1 ++ skipn 80 (rows frame2).
Proof.
  assert (Hwf : forall top, wf (view 100 300 top))
    by (intros top; apply wf_view; lia).
  assert (H1 : Forall wf [frame1; frame2])
    by (repeat constructor; apply Hwf).
  assert (H2 : Forall (fun f => width f = width frame1) [frame2])
    by (repeat constructor).
  split; [exact H1|]. split; [exact H2|].
  destruct (stitched_rows frame1 [frame2] H1 H2)
    as [os [stitched [Hos [Hst [Hr _]]]]].
  exists stitched. split; [exact Hst|].
  assert (H80 : _find_overlap frame1 frame2 = Ok 80)
    by (vm_compute; reflexivity).
  cbn [pair_overlaps] in Hos. rewrite H80 in Hos. cbn [rbind] in Hos.
  inversion Hos; subst os. rewrite Hr. cbn [kept_rows].
  rewrite app_nil_r. reflexivity.
Defined.

(** ** [_find_overlap]: what it looks at *)

Lemma scan_overlaps_ext (a b a' b' : Image) (sx sw : Z) (l : list Z) :
  (forall c, In c l ->
             strips_match a' b' sx sw c = strips_match a b sx sw c) ->
  scan_overlaps a' b' sx sw l = scan_overlaps a b sx sw l.
Proof.
  induction l as [|c l IH]; intros H; [reflexivity|].
  cbn [scan_overlaps]. rewrite (H c) by (left; reflexivity).
  destruct (strips_match a b sx sw c) as [[|]|e]; cbn [rbind];
    try reflexivity.
  apply IH. intros c' Hc'. apply H. right. exact Hc'.
Qed.

(** X5: the locator looks at nothing but the sample window: the middle
    columns of the lower part of [img1] and of the first 50 rows of
    [img2].  Frames of the same sizes that agree there get the same
    answer, whatever they show elsewhere. *)
Theorem find_overlap_reads_sample_only (img1 img2 img1' img2' : Image) :
  0 <= width img1 ->
  width img1' = width img1 ->
  height img1' = height img1 ->
  height img2' = height img2 ->
  (forall x y,
      sample_x img1 - sample_width img1 / 2 <= x
      < sample_x img1 + sample_width img1 / 2 ->
      height img1 - max_overlap img1 img2 < y < height img1 ->
      getpixel img1' x y = getpixel img1 x y) ->
  (forall x y,
      sample_x img1 - sample_width img1 / 2 <= x
      < sample_x img1 + sample_width img1 / 2 ->
      0 <= y < strip_height ->
      getpixel img2' x y = getpixel img2 x y) ->
  _find_overlap img1' img2' = _find_overlap img1 img2.
Proof.
  intros Hw Hw' Hh1 Hh2 Hsame1 Hsame2.
  pose proof (sample_half_nonneg img1 Hw) as Hhalf.
  unfold _find_overlap.
  replace (sample_x img1') with (sample_x img1)
    by (unfold sample_x; rewrite Hw'; reflexivity).
  replace (sample_width img1') with (sample_width img1)
    by (unfold sample_width; rewrite Hw'; reflexivity).
  replace (candidates img1' img2') with (candidates img1 img2)
    by (unfold candidates, max_overlap; rewrite Hh1, Hh2; reflexivity).
  apply scan_overlaps_ext. intros c Hc.
  apply candidates_range in Hc. destruct Hc as [k [Hk [-> Hlt]]].
  unfold strips_match. rewrite Hh1.
  rewrite !crop_ok by (unfold strip_height; lia).
  cbn [rbind]. unfold strip_height in *. f_equal. f_equal.
  - apply build_ext. intros x y Hx Hy. apply Hsame1; lia.
  - apply build_ext. intros x y Hx Hy. apply Hsame2; lia.
Qed.

Lemma find_overlap_reads_sample_only_witness :
  0 <= width frame1
  /\ width frame1 = width frame1
  /\ height frame2_masked = height frame2
  /\ _find_overlap frame1 frame2_masked = _find_overlap frame1 frame2.
Proof.
  assert (Hw : 0 <= width frame1) by (simpl; lia).
  assert (Hh : height frame2_masked = height frame2) by reflexivity.
  split; [exact Hw|]. split; [reflexivity|]. split; [exact Hh|].
  apply (find_overlap_reads_sample_only
           frame1 frame2 frame1 frame2_masked Hw eq_refl eq_refl Hh).
  - intros x y _ _. reflexivity.
  - intros x y Hx Hy.
    change (sample_x frame1 - sample_width frame1 / 2) with 38 in Hx.
    change (sample_x frame1 + sample_width frame1 / 2) with 62 in Hx.
    unfold strip_height in Hy.
    unfold frame2_masked, frame2, view.
    rewrite !getpixel_build by lia.
    destruct (Z.leb_spec 38 x); [|lia].
    destruct (Z.ltb_spec x 62); [|lia].
    destruct (Z.ltb_spec y 50); [|lia]. reflexivity.
Defined.

(** ** The capture loop, round by round *)

Lemma length_pixels_of_bytes (n : nat) :
  forall data, (3 * n <= length data)%nat ->
               length (pixels_of_bytes n data) = n.
Proof.
  induction n as [|n IH]; intros data Hlen; [reflexivity|].
  destruct data as [|r [|g [|b data]]]; cbn [length] in Hlen; try lia.
  cbn [pixels_of_bytes length]. rewrite IH by lia. reflexivity.
Qed.

Lemma rows_of_bytes_shape (w h : nat) :
  forall data, length data = (3 * w * h)%nat ->
    length (rows_of_bytes w h data) = h
    /\ Forall (fun r => length r = w) (rows_of_bytes w h data).
Proof.
  induction h as [|h IH]; intros data Hlen.
  - split; [reflexivity|constructor].
  - cbn [rows_of_bytes length].
    destruct (IH (skipn (3 * w) data)) as [Hl Hf].
    { rewrite length_skipn. nia. }
    split; [rewrite Hl; reflexivity|].
    constructor; [apply length_pixels_of_bytes; nia|exact Hf].
Qed.

(** What the decoder returns is a well-formed image of the given size,
    and its bytes are the bytes decoded. *)
Lemma frombytes_wf (w h : Z) (data : list byte) (img : Image) :
  frombytes (w, h) data = Ok img ->
  wf img /\ width img = w /\ height img = h.
Proof.
  unfold frombytes.
  destruct (Z.ltb_spec w 0); [discriminate|].
  destruct (Z.ltb_spec h 0); [discriminate|]. cbn [orb].
  destruct (Z.eqb_spec (Z.of_nat (length data)) (3 * w * h)) as [Hlen|];
    [|discriminate].
  cbn [negb]. intros Hok. inversion Hok; subst img. clear Hok.
  destruct (rows_of_bytes_shape (Z.to_nat w) (Z.to_nat h) data) as [Hl Hf];
    [nia|].
  unfold wf, valid_size. cbn [width height rows].
  repeat split; assumption.
Qed.

Section Rounds.

Context {W : Type}.
Variable host : Host W.
Variable hash : list byte -> Z.

Lemma bind_call_raise {A B} ev (op : W -> result A * W) (k : A -> M W B)
      (me : ScrollingCapture) (w0 : W) e w :
  op w0 = (Raise e, w) ->
  bind (call ev op) k (mkState me w0) = (Raise e, mkState me w, [ev; Threw e]).
Proof.
  intros H. unfold bind, call. cbn [world self]. rewrite H. reflexivity.
Qed.

Lemma bind_lift_raise {A B} (r : result A) (k : A -> M W B) (s : State W) e :
  r = Raise e -> bind (lift r) k s = (Raise e, s, []).
Proof. intros ->. reflexivity. Qed.

(** What one run of the loop does to the store and the trace.  The
    frames it adds, [more], are well-formed, at most as many as there
    are rounds left, and none repeats the fingerprint before it; there
    is at most one grab a round, and at most one more grab than frames;
    Page Down is pressed at most once per frame, and exactly once when
    the loop ends normally; and an exception is one the host threw or
    the decoder's [ValueError]. *)
Lemma loop_spec (fuel : nat) :
  forall max_scrolls rect previous_hash scroll_count s,
    max_scrolls - scroll_count <= Z.of_nat fuel ->
    exists more,
      images (self (final (capture_loop host hash fuel max_scrolls rect
                             previous_hash scroll_count s)))
      = images (self s) ++ more
      /\ Z.of_nat (length more) <= Z.max 0 (max_scrolls - scroll_count)
      /\ Forall wf more
      /\ no_repeat hash previous_hash more
      /\ Z.of_nat (length (grab_regions
                             (events (capture_loop host hash fuel
                                        max_scrolls rect previous_hash
                                        scroll_count s))))
         <= Z.max 0 (max_scrolls - scroll_count)
      /\ (length (grab_regions
                    (events (capture_loop host hash fuel max_scrolls rect
                               previous_hash scroll_count s)))
          <= length more + 1)%nat
      /\ (page_downs (events (capture_loop host hash fuel max_scrolls rect
                                previous_hash scroll_count s))
          <= length more)%nat
      /\ (outcome (capture_loop host hash fuel max_scrolls rect
                     previous_hash scroll_count s) = Ok tt ->
          page_downs (events (capture_loop host hash fuel max_scrolls rect
                                previous_hash scroll_count s))
          = length more)
      /\ (forall e,
             outcome (capture_loop host hash fuel max_scrolls rect
                        previous_hash scroll_count s) = Raise e ->
             In (Threw e)
                (events (capture_loop host hash fuel max_scrolls rect
                           previous_hash scroll_count s))
             \/ e = ValueError)
      /\ (outcome (capture_loop host hash fuel max_scrolls rect
                     previous_hash scroll_count s) = Ok tt ->
          (length (grab_regions
                     (events (capture_loop host hash fuel max_scrolls rect
                                previous_hash scroll_count s)))
           = length more
           /\ Z.of_nat (length more)
              = Z.max 0 (max_scrolls - scroll_count))
          \/ length (grab_regions
                       (events (capture_loop host hash fuel max_scrolls
                                  rect previous_hash scroll_count s)))
             = (length more + 1)%nat)
      /\ (outcome (capture_loop host hash fuel max_scrolls rect
                     previous_hash scroll_count s) = Ok tt ->
          key_events (events (capture_loop host hash fuel max_scrolls rect
                                previous_hash scroll_count s))
          = page_down_keys (length more)).
Proof.
  induction fuel as [|fuel IH];
    intros max_scrolls rect prev count s Hfuel.
  - rewrite loop_done by lia. exists []. rewrite app_nil_r.
    cbn [final outcome events fst snd length grab_regions flat_map
         page_downs filter no_repeat key_events page_down_keys repeat
         concat].
    round_done.
  - destruct (Z.le_gt_cases max_scrolls count) as [Hdone|Hlt].
    { rewrite loop_done by lia. exists []. rewrite app_nil_r.
      cbn [final outcome events fst snd length grab_regions flat_map
           page_downs filter no_repeat key_events page_down_keys repeat
           concat].
      round_done. }
    destruct s as [me w0]. cbn [capture_loop].
    destruct (Z.ltb_spec count max_scrolls); [|lia].
    cbn [self world].
    destruct (grab host rect w0) as [[shot|e] w1] eqn:Hgrab.
    2: { (* the grabber throws *)
      rewrite (bind_call_raise _ _ _ _ _ _ _ Hgrab). exists [].
      rewrite app_nil_r.
      cbn [final outcome events fst snd length grab_regions flat_map app
           page_downs filter is_page_down no_repeat self key_events
           page_down_keys repeat concat].
      round_done.
      intros e' He'. inversion He'; subst. left. right. left.
      reflexivity. }
    rewrite (bind_call_ok _ _ _ _ _ _ _ Hgrab). run_proj.
    destruct (frombytes (shot_width shot, shot_height shot) (rgb shot))
      as [img|e] eqn:Hfrom.
    2: { (* the buffer does not decode *)
      rewrite (bind_lift_raise (Raise e) _ _ e eq_refl). exists [].
      rewrite app_nil_r.
      cbn [final outcome events fst snd length grab_regions flat_map app
           page_downs filter is_page_down no_repeat self key_events
           page_down_keys repeat concat].
      round_done.
      intros e' He'. inversion He'; subst. right.
        revert Hfrom. unfold frombytes.
        destruct (_ || _); [intros H'; inversion H'; reflexivity|].
        destruct (negb _); intros H'; inversion H'; reflexivity. }
    rewrite (bind_lift_ok (Ok img) _ _ img eq_refl).
    destruct (hash_eq (fingerprint hash img) prev) eqn:Hdup.
    { (* a duplicate: stop *)
      exists []. rewrite app_nil_r.
      cbn [ret final outcome events fst snd length grab_regions flat_map
           app page_downs filter is_page_down no_repeat self key_events
           page_down_keys repeat concat].
      round_done. }
    rewrite bind_append. cbn [self world hwnd images _scroll_amount].
    unfold _scroll_down. rewrite bind_assoc. unfold key.
    destruct (frombytes_wf _ _ _ _ Hfrom) as [Himg _].
    destruct (keybd_event host VK_NEXT 0 0 0 w1) as [[[]|e] w2] eqn:Hk1.
    2: { (* Page Down cannot be pressed *)
      rewrite (bind_call_raise _ _ _ _ _ _ _ Hk1). exists [img].
      cbn [final outcome events fst snd length grab_regions flat_map app
           page_downs filter is_page_down no_repeat self images key_events
           page_down_keys repeat concat].
      change (VK_NEXT =? VK_NEXT) with true. cbn [andb length].
      round_done.
      intros e' He'. inversion He'; subst. left. right. right. left.
      reflexivity. }
    rewrite (bind_call_ok _ _ _ _ _ _ _ Hk1). run_proj.
    destruct (keybd_event host VK_NEXT 0 2 0 w2) as [[[]|e] w3] eqn:Hk2.
    2: { (* Page Down cannot be released *)
      rewrite (bind_call_raise _ _ _ _ _ _ _ Hk2). exists [img].
      cbn [final outcome events fst snd length grab_regions flat_map app
           page_downs filter is_page_down no_repeat self images key_events
           page_down_keys repeat concat].
      change (VK_NEXT =? VK_NEXT) with true. cbn [andb length filter].
      change (2 =? 0) with false. cbn [andb length filter].
      round_done.
      intros e' He'. inversion He'; subst. left. do 3 right. left.
      reflexivity. }
    rewrite (bind_call_ok _ _ _ _ _ _ _ Hk2). run_proj.
    unfold time_sleep.
    rewrite (bind_call_ok _ _ _ _ w3 tt (sleep host 30 w3) eq_refl).
    run_proj.
    match goal with
    | |- context [capture_loop host hash fuel max_scrolls rect ?p ?c ?s1] =>
        destruct (IH max_scrolls rect p c s1 ltac:(lia))
          as [more [Hstore [Hlen [Hwf [Hrep [Hgrabs [Hg1 [Hpd [Hpdok
               [Hexn [Hstop Hkeys]]]]]]]]]]];
        set (next := capture_loop host hash fuel max_scrolls rect p c s1)
          in *
    end.
    exists (img :: more).
    cbn [self images] in Hstore.
    cbn [grab_regions flat_map app page_downs filter is_page_down length
         no_repeat key_events page_down_keys repeat concat].
    change (VK_NEXT =? VK_NEXT) with true.
    change (2 =? 0) with false. change (0 =? 0) with true.
    cbn [andb length filter].
    fold (grab_regions (events next)). fold (page_downs (events next)).
    fold (key_events (events next)). fold (page_down_keys (length more)).
    split; [rewrite Hstore, <- app_assoc; reflexivity|].
    split; [lia|]. split; [constructor; assumption|].
    split; [split; assumption|].
    split; [lia|]. split; [lia|]. split; [lia|].
    split; [intros Hok; rewrite (Hpdok Hok); reflexivity|].
    split.
    { intros e He.
      destruct (Hexn e He) as [Hin|Hv]; [left|right; exact Hv].
      do 4 right. exact Hin. }
    split; [intros Hok; specialize (Hstop Hok); lia|].
    intros Hok. rewrite (Hkeys Hok). reflexivity.
Qed.

Lemma bind_ret {A B} (a : A) (k : A -> M W B) (s : State W) :
  bind (ret a) k s = k a s.
Proof.
  unfold bind, ret. destruct (k a s) as [[r s2] ev2]. reflexivity.
Qed.

Lemma bind_emit {B} ev (k : unit -> M W B) (s : State W) :
  bind (emit ev) k s
  = (outcome (k tt s), final (k tt s), ev :: events (k tt s)).
Proof.
  unfold bind, emit. destruct (k tt s) as [[r s2] ev2]. reflexivity.
Qed.

Lemma bind_sleep {B} ms (k : unit -> M W B) (me : ScrollingCapture)
      (w0 : W) :
  bind (time_sleep host ms) k (mkState me w0)
  = (outcome (k tt (mkState me (sleep host ms w0))),
     final (k tt (mkState me (sleep host ms w0))),
     Sleep ms :: events (k tt (mkState me (sleep host ms w0)))).
Proof.
  unfold time_sleep. apply bind_call_ok. reflexivity.
Qed.

(** How a run of [capture] divides: either a call made before the loop
    throws, and nothing is grabbed or stored; or the loop is entered
    with the object as it was, and [capture] ends where the loop ends,
    returning what the stitcher makes of the store. *)
Lemma capture_cases (max_scrolls : Z) (s : State W) :
  (exists e,
      outcome (capture host hash max_scrolls s) = Raise e
      /\ In (Threw e) (events (capture host hash max_scrolls s))
      /\ self (final (capture host hash max_scrolls s)) = self s
      /\ grab_regions (events (capture host hash max_scrolls s)) = []
      /\ page_downs (events (capture host hash max_scrolls s)) = 0%nat)
  \/ (exists rect s0 pre,
         self s0 = self s
         /\ grab_regions pre = [] /\ page_downs pre = 0%nat
         /\ key_events pre = top_keys
         /\ events (capture host hash max_scrolls s)
            = pre ++ events (capture_loop host hash (Z.to_nat max_scrolls)
                                          max_scrolls rect None 0 s0)
         /\ final (capture host hash max_scrolls s)
            = final (capture_loop host hash (Z.to_nat max_scrolls)
                                  max_scrolls rect None 0 s0)
         /\ outcome (capture host hash max_scrolls s)
            = match outcome (capture_loop host hash (Z.to_nat max_scrolls)
                                          max_scrolls rect None 0 s0) with
              | Raise e => Raise e
              | Ok _ =>
                  match images (self (final (capture_loop host hash
                                               (Z.to_nat max_scrolls)
                                               max_scrolls rect None 0 s0)))
                  with
                  | [] => Ok None
                  | stored => rbind (_stitch_images stored)
                                    (fun stitched => Ok (Some stitched))
                  end
              end).
Proof.
  unfold capture. destruct s as [me w0]. rewrite run_get_self.
  cbn [self]. unfold bring_window_to_front.
  destruct (SetForegroundWindow host (hwnd me) w0) as [[[]|e] w1] eqn:H1.
  2: { left. rewrite (bind_call_raise _ _ _ _ _ _ _ H1).
       run_proj. exists e.
       repeat split; try reflexivity; simpl; tauto. }
  rewrite (bind_call_ok _ _ _ _ _ _ _ H1). run_proj.
  rewrite bind_sleep. run_proj.
  unfold get_window_rect. rewrite bind_assoc.
  destruct (DwmGetWindowAttribute host (hwnd me) DWMWA_EXTENDED_FRAME_BOUNDS
              (mkRECT 0 0 0 0) (sleep host 50 w1))
    as [[[hresult box]|e] w2] eqn:H2.
  2: { left. rewrite (bind_call_raise _ _ _ _ _ _ _ H2).
       run_proj. exists e.
       repeat split; try reflexivity; simpl; tauto. }
  rewrite (bind_call_ok _ _ _ _ _ _ _ H2). run_proj. cbn beta iota.
  rewrite bind_assoc.
  assert (Hafter : forall (box' : RECT) (w3 : W) (evq : list Event),
             grab_regions evq = [] -> page_downs evq = 0%nat ->
             key_events evq = [] ->
             let k := fun rect : Rect =>
               bind (_scroll_to_top host) (fun _ =>
               bind (time_sleep host 50) (fun _ =>
               bind (capture_loop host hash (Z.to_nat max_scrolls)
                                  max_scrolls rect None 0) (fun _ =>
               bind get_self (fun me0 =>
                 match images me0 with
                 | [] => ret None
                 | _ => bind (lift (_stitch_images (images me0)))
                             (fun stitched => ret (Some stitched))
                 end)))) in
             let rect := (rc_left box', rc_top box',
                          rc_right box' - rc_left box',
                          rc_bottom box' - rc_top box') in
             let run := k rect (mkState me w3) in
             (exists e,
                 outcome run = Raise e
                 /\ In (Threw e) (evq ++ events run)
                 /\ self (final run) = me
                 /\ grab_regions (evq ++ events run) = []
                 /\ page_downs (evq ++ events run) = 0%nat)
             \/ (exists rect0 s0 pre,
                    self s0 = me
                    /\ grab_regions pre = [] /\ page_downs pre = 0%nat
                    /\ key_events pre = top_keys
                    /\ evq ++ events run
                       = pre ++ events (capture_loop host hash
                                          (Z.to_nat max_scrolls) max_scrolls
                                          rect0 None 0 s0)
                    /\ final run
                       = final (capture_loop host hash
                                  (Z.to_nat max_scrolls) max_scrolls
                                  rect0 None 0 s0)
                    /\ outcome run
                       = match outcome (capture_loop host hash
                                          (Z.to_nat max_scrolls) max_scrolls
                                          rect0 None 0 s0) with
                         | Raise e => Raise e
                         | Ok _ =>
                             match images (self (final (capture_loop host
                                             hash (Z.to_nat max_scrolls)
                                             max_scrolls rect0 None 0 s0)))
                             with
                             | [] => Ok None
                             | stored =>
                                 rbind (_stitch_images stored)
                                       (fun stitched => Ok (Some stitched))
                             end
                         end)).
  { intros box' w3 evq Hgq Hpq Hkq k rect run. subst run k.
    assert (Hk : forall evs, key_events (evq ++ evs) = key_events evs).
    { intros evs. unfold key_events in *.
      rewrite flat_map_app, Hkq. reflexivity. }
    assert (Hq : forall evs, grab_regions evs = [] ->
                             grab_regions (evq ++ evs) = []).
    { intros evs Hevs. unfold grab_regions in *.
      rewrite flat_map_app, Hgq, Hevs. reflexivity. }
    assert (Hp : forall evs, page_downs evs = 0%nat ->
                             page_downs (evq ++ evs) = 0%nat).
    { intros evs Hevs. unfold page_downs in *.
      rewrite filter_app, length_app, Hpq, Hevs. reflexivity. }
    unfold _scroll_to_top. rewrite !bind_assoc. unfold key.
    destruct (keybd_event host VK_CONTROL 0 0 0 w3) as [[[]|e] w4] eqn:K1.
    2: { left. rewrite (bind_call_raise _ _ _ _ _ _ _ K1). run_proj.
         exists e. repeat split;
           [apply in_or_app; right; simpl; tauto|apply Hq|apply Hp];
           reflexivity. }
    rewrite (bind_call_ok _ _ _ _ _ _ _ K1). run_proj.
    rewrite ?bind_assoc.
    destruct (keybd_event host VK_HOME 0 0 0 w4) as [[[]|e] w5] eqn:K2.
    2: { left. rewrite (bind_call_raise _ _ _ _ _ _ _ K2). run_proj.
         exists e. repeat split;
           [apply in_or_app; right; simpl; tauto|apply Hq|apply Hp];
           reflexivity. }
    rewrite (bind_call_ok _ _ _ _ _ _ _ K2). run_proj.
    rewrite ?bind_assoc.
    destruct (keybd_event host VK_HOME 0 2 0 w5) as [[[]|e] w6] eqn:K3.
    2: { left. rewrite (bind_call_raise _ _ _ _ _ _ _ K3). run_proj.
         exists e. repeat split;
           [apply in_or_app; right; simpl; tauto|apply Hq|apply Hp];
           reflexivity. }
    rewrite (bind_call_ok _ _ _ _ _ _ _ K3). run_proj.
    rewrite ?bind_assoc.
    destruct (keybd_event host VK_CONTROL 0 2 0 w6) as [[[]|e] w7] eqn:K4.
    2: { left. rewrite (bind_call_raise _ _ _ _ _ _ _ K4). run_proj.
         exists e. repeat split;
           [apply in_or_app; right; simpl; tauto|apply Hq|apply Hp];
           reflexivity. }
    rewrite (bind_call_ok _ _ _ _ _ _ _ K4). run_proj.
    rewrite bind_sleep. run_proj. right.
    exists rect, (mkState me (sleep host 50 w7)),
      (evq ++ [Key VK_CONTROL 0; Key VK_HOME 0; Key VK_HOME 2;
               Key VK_CONTROL 2; Sleep 50]).
    rewrite run_bind.
    set (loop := capture_loop host hash (Z.to_nat max_scrolls) max_scrolls
                              rect None 0 (mkState me (sleep host 50 w7))).
    split; [reflexivity|]. split; [apply Hq; reflexivity|].
    split; [apply Hp; reflexivity|].
    split; [rewrite Hk; reflexivity|].
    destruct (outcome loop) as [[]|e]; run_proj.
    - rewrite run_get_self.
      destruct (images (self (final loop))) as [|first rest'].
      + cbn [ret events final outcome fst snd]. rewrite app_nil_r.
        rewrite <- app_assoc. repeat split; reflexivity.
      + unfold bind, lift, ret.
        destruct (_stitch_images (first :: rest')) as [st|e];
          cbn [events final outcome fst snd rbind app];
          rewrite ?app_nil_r, <- app_assoc; repeat split; reflexivity.
    - rewrite <- app_assoc. repeat split; reflexivity. }
  destruct (negb (hresult =? 0)).
  - destruct (GetWindowRect host (hwnd me) box w2) as [[box'|e] w3] eqn:H3.
    2: { left. rewrite (bind_call_raise _ _ _ _ _ _ _ H3). run_proj.
         run_proj. exists e.
       repeat split; try reflexivity; simpl; tauto. }
    rewrite (bind_call_ok _ _ _ _ _ _ _ H3). run_proj.
    rewrite bind_assoc, bind_emit, bind_ret. run_proj.
    destruct (Hafter box' w3
                [Foreground (hwnd me); Sleep 50; DwmCall (hwnd me);
                 UserRectCall (hwnd me);
                 RectQuery (hwnd me)
                           (rc_left box', rc_top box',
                            rc_right box' - rc_left box',
                            rc_bottom box' - rc_top box')]
                eq_refl eq_refl eq_refl)
      as [Hl|Hr]; [left|right]; assumption.
  - rewrite bind_ret, bind_assoc, bind_emit, bind_ret. run_proj.
    destruct (Hafter box w2
                [Foreground (hwnd me); Sleep 50; DwmCall (hwnd me);
                 RectQuery (hwnd me)
                           (rc_left box, rc_top box,
                            rc_right box - rc_left box,
                            rc_bottom box - rc_top box)]
                eq_refl eq_refl eq_refl)
      as [Hl|Hr]; [left|right]; assumption.
Qed.

Lemma grab_regions_app (a b : list Event) :
  grab_regions (a ++ b) = grab_regions a ++ grab_regions b.
Proof.
  unfold grab_regions. apply flat_map_app.
Qed.

Lemma page_downs_app (a b : list Event) :
  page_downs (a ++ b) = (page_downs a + page_downs b)%nat.
Proof.
  unfold page_downs. rewrite filter_app. apply length_app.
Qed.

(** One call of [capture], in full: what the loop does, seen from
    outside. *)
Lemma capture_spec (max_scrolls : Z) (s : State W) :
  exists more,
    images (self (final (capture host hash max_scrolls s)))
    = images (self s) ++ more
    /\ Z.of_nat (length more) <= Z.max 0 max_scrolls
    /\ Forall wf more
    /\ no_repeat hash None more
    /\ Z.of_nat (length (grab_regions
                           (events (capture host hash max_scrolls s))))
       <= Z.max 0 max_scrolls
    /\ (length (grab_regions (events (capture host hash max_scrolls s)))
        <= length more + 1)%nat
    /\ (page_downs (events (capture host hash max_scrolls s))
        <= length more)%nat
    /\ (forall r, outcome (capture host hash max_scrolls s) = Ok r ->
                  page_downs (events (capture host hash max_scrolls s))
                  = length more)
    /\ (Forall valid_size (images (self s)) ->
        forall e, outcome (capture host hash max_scrolls s) = Raise e ->
                  In (Threw e) (events (capture host hash max_scrolls s))
                  \/ e = ValueError)
    /\ (forall r, outcome (capture host hash max_scrolls s) = Ok r ->
                  (length (grab_regions
                             (events (capture host hash max_scrolls s)))
                   = length more
                   /\ Z.of_nat (length more) = Z.max 0 max_scrolls)
                  \/ length (grab_regions
                               (events (capture host hash max_scrolls s)))
                     = (length more + 1)%nat)
    /\ (forall r, outcome (capture host hash max_scrolls s) = Ok r ->
                  key_events (events (capture host hash max_scrolls s))
                  = top_keys ++ page_down_keys (length more)).
Proof.
  destruct (capture_cases max_scrolls s)
    as [[e [Ho [Hin [Hself [Hg Hp]]]]]
       |[rect [s0 [pre [Hs0 [Hg [Hp [Hkeys [Hev [Hfin Hout]]]]]]]]]].
  - exists []. rewrite Hself, app_nil_r, Hg, Hp. cbn [length].
    split_all; try lia; try solve [constructor].
    + intros _ e' He'. rewrite Ho in He'. inversion He'; subst.
      left. exact Hin.
    + intros r Hr. rewrite Ho in Hr. discriminate.
    + intros r Hr. rewrite Ho in Hr. discriminate.
  - destruct (loop_spec (Z.to_nat max_scrolls) max_scrolls rect None 0 s0
                        ltac:(lia))
      as [more [Himgs [Hlen [Hwf [Hrep [Hgz [Hgn [Hpd [Hpok
           [Hexn [Hstop Hpress]]]]]]]]]]].
    rewrite Z.sub_0_r in Hlen, Hgz, Hstop.
    exists more. rewrite Hfin, Hev, grab_regions_app, page_downs_app.
    rewrite Hg, Hp, Himgs, Hs0. cbn [app plus].
    split_all; try assumption; try reflexivity.
    + intros r Hr. rewrite Hout in Hr. apply Hpok.
      destruct (outcome (capture_loop _ _ _ _ _ _ _ _)) as [[]|e];
        [reflexivity|discriminate].
    + intros Hstore e He. rewrite Hout in He.
      destruct (outcome (capture_loop _ _ _ _ _ _ _ _)) as [[]|e0] eqn:Hl.
      * exfalso. rewrite Himgs, Hs0 in He.
        destruct (images (self s) ++ more) as [|first rest] eqn:Hall;
          [discriminate|].
        assert (Hvalid : Forall valid_size (first :: rest)).
        { rewrite <- Hall. apply Forall_app. split; [exact Hstore|].
          revert Hwf. apply Forall_impl. intros f Hf. apply Hf. }
        destruct (stitch_images_size first rest Hvalid)
          as [os [stitched [_ [Hst _]]]].
        rewrite Hst in He. discriminate.
      * inversion He; subst.
        destruct (Hexn e eq_refl) as [Hin| ->]; [left|right; reflexivity].
        apply in_or_app. right. exact Hin.
    + intros r Hr. rewrite Hout in Hr. apply Hstop.
      destruct (outcome (capture_loop _ _ _ _ _ _ _ _)) as [[]|e];
        [reflexivity|discriminate].
    + intros r Hr. rewrite Hout in Hr.
      unfold key_events in *. rewrite flat_map_app, Hkeys. f_equal.
      apply Hpress.
      destruct (outcome (capture_loop _ _ _ _ _ _ _ _)) as [[]|e];
        [reflexivity|discriminate].
Qed.

(** X8: one call of [capture] appends at most [max_scrolls] frames to
    the store, each well-formed, and grabs the screen at most
    [max_scrolls] times and at most once more than it stores. *)
Theorem capture_frames_bounded (max_scrolls : Z) (s : State W) :
  exists more,
    images (self (final (capture host hash max_scrolls s)))
    = images (self s) ++ more
    /\ Forall wf more
    /\ Z.of_nat (length more) <= Z.max 0 max_scrolls
    /\ Z.of_nat (length (grab_regions
                           (events (capture host hash max_scrolls s))))
       <= Z.max 0 max_scrolls
    /\ (length (grab_regions (events (capture host hash max_scrolls s)))
        <= length more + 1)%nat.
Proof.
  destruct (capture_spec max_scrolls s)
    as [more [Himgs [Hlen [Hwf [_ [Hgz [Hgn _]]]]]]].
  exists more. split_all; assumption.
Qed.

(** X9: among the frames one call of [capture] stores, none has the
    fingerprint of the frame stored just before it. *)
Theorem capture_stores_no_repeat (max_scrolls : Z) (s : State W) :
  exists more,
    images (self (final (capture host hash max_scrolls s)))
    = images (self s) ++ more
    /\ no_repeat hash None more.
Proof.
  destruct (capture_spec max_scrolls s) as [more [Himgs [_ [_ [Hrep _]]]]].
  exists more. split; assumption.
Qed.

(** X10: however [capture] ends, it has pressed Page Down at most once
    for each frame it stored: it never scrolls past a view it has not
    kept. *)
Theorem capture_page_down_per_frame (max_scrolls : Z) (s : State W) :
  exists more,
    images (self (final (capture host hash max_scrolls s)))
    = images (self s) ++ more
    /\ (page_downs (events (capture host hash max_scrolls s))
        <= length more)%nat.
Proof.
  destruct (capture_spec max_scrolls s)
    as [more [Himgs [_ [_ [_ [_ [_ [Hpd _]]]]]]]].
  exists more. split_all; assumption.
Qed.

(** X11: the keyboard events of a [capture] that returns are Ctrl+Home,
    pressed and released in the order Ctrl, Home, Home, Ctrl, and then
    Page Down pressed and released once for each frame stored: every
    key pressed has been released. *)
Theorem capture_key_sequence (max_scrolls : Z) (s : State W)
        (r : option Image) :
  outcome (capture host hash max_scrolls s) = Ok r ->
  exists more,
    images (self (final (capture host hash max_scrolls s)))
    = images (self s) ++ more
    /\ key_events (events (capture host hash max_scrolls s))
       = top_keys ++ page_down_keys (length more).
Proof.
  intros Hok.
  destruct (capture_spec max_scrolls s)
    as [more [Himgs [_ [_ [_ [_ [_ [_ [_ [_ [_ Hkeys]]]]]]]]]]].
  exists more. split; [exact Himgs|]. exact (Hkeys r Hok).
Qed.

(** X13: started on a store of frames of valid size, [capture] raises
    only what a call into the host threw, or the [ValueError] of the
    decoder; the stitcher adds no exception of its own. *)
Theorem capture_raises_host_or_decoder (max_scrolls : Z) (s : State W)
        (e : exn) :
  Forall valid_size (images (self s)) ->
  outcome (capture host hash max_scrolls s) = Raise e ->
  In (Threw e) (events (capture host hash max_scrolls s))
  \/ e = ValueError.
Proof.
  intros Hstore He.
  destruct (capture_spec max_scrolls s)
    as [more [_ [_ [_ [_ [_ [_ [_ [_ [Hexn _]]]]]]]]]].
  exact (Hexn Hstore e He).
Qed.

(** X12: a [capture] that returns has either used up its [max_scrolls]
    rounds, storing every frame it grabbed, or dropped its last grab
    as a repeat of the frame before: it then grabbed once more than
    it stored. *)
Theorem capture_stop_reason (max_scrolls : Z) (s : State W)
        (r : option Image) :
  outcome (capture host hash max_scrolls s) = Ok r ->
  exists more,
    images (self (final (capture host hash max_scrolls s)))
    = images (self s) ++ more
    /\ ((length (grab_regions (events (capture host hash max_scrolls s)))
         = length more
         /\ Z.of_nat (length more) = Z.max 0 max_scrolls)
        \/ length (grab_regions (events (capture host hash max_scrolls s)))
           = (length more + 1)%nat).
Proof.
  intros Hok.
  destruct (capture_spec max_scrolls s)
    as [more [Himgs [_ [_ [_ [_ [_ [_ [_ [_ [Hstop _]]]]]]]]]]].
  exists more. split; [exact Himgs|]. exact (Hstop r Hok).
Qed.

(** X14: with [max_scrolls <= 0] the loop body never runs: [capture]
    grabs nothing, presses no Page Down and leaves the store as it
    was; on an empty store it returns [None], unless a call before
    the loop threw. *)
Theorem capture_zero_scrolls (max_scrolls : Z) (s : State W) :
  max_scrolls <= 0 ->
  grab_regions (events (capture host hash max_scrolls s)) = []
  /\ page_downs (events (capture host hash max_scrolls s)) = 0%nat
  /\ images (self (final (capture host hash max_scrolls s)))
     = images (self s)
  /\ (images (self s) = [] ->
      outcome (capture host hash max_scrolls s) = Ok None
      \/ exists e,
           outcome (capture host hash max_scrolls s) = Raise e
           /\ In (Threw e) (events (capture host hash max_scrolls s))).
Proof.
  intros Hmax.
  destruct (capture_cases max_scrolls s)
    as [[e [Ho [Hin [Hself [Hg Hp]]]]]
       |[rect [s0 [pre [Hs0 [Hg [Hp [_ [Hev [Hfin Hout]]]]]]]]]].
  - rewrite Hself, Hg, Hp. split_all; try reflexivity.
    intros _. right. exists e. split; assumption.
  - rewrite (loop_done host hash (Z.to_nat max_scrolls) max_scrolls rect
                       None 0 s0 Hmax) in Hev, Hfin, Hout.
    cbn [outcome final events fst snd] in Hev, Hfin, Hout.
    rewrite Hev, Hfin, app_nil_r, Hg, Hp, Hs0.
    split_all; try reflexivity. intros Hempty. left.
    rewrite Hout, Hs0, Hempty. reflexivity.
Qed.

(** X15: what [capture] returns, on a store of frames of valid size, is
    the stitch of the whole store as the call leaves it: as wide as
    the first stored frame, at least as high as every stored frame and
    at most as high as all of them together. *)
Theorem capture_returns_stitched_store (max_scrolls : Z) (s : State W)
        (img : Image) :
  Forall valid_size (images (self s)) ->
  outcome (capture host hash max_scrolls s) = Ok (Some img) ->
  exists first rest,
    images (self (final (capture host hash max_scrolls s))) = first :: rest
    /\ _stitch_images (first :: rest) = Ok img
    /\ width img = width first
    /\ height img <= total_height (first :: rest)
    /\ forall f, In f (first :: rest) -> height f <= height img.
Proof.
  intros Hstore Hok.
  destruct (capture_spec max_scrolls s) as [more [Himgs [_ [Hwf _]]]].
  destruct (capture_ok_inv host hash max_scrolls s (Some img) Hok)
    as [rect [s0 [_ [_ Hres]]]].
  assert (Hvalid : Forall valid_size
                     (images (self (final (capture host hash max_scrolls
                                                   s))))).
  { rewrite Himgs. apply Forall_app. split; [exact Hstore|].
    revert Hwf. apply Forall_impl. intros f Hf. apply Hf. }
  destruct (images (self (final (capture host hash max_scrolls s))))
    as [|first rest]; [discriminate|].
  destruct Hres as [stitched [Hst Hsome]]. inversion Hsome; subst stitched.
  exists first, rest. split; [reflexivity|]. split; [exact Hst|].
  destruct (stitch_images_size first rest Hvalid)
    as [os [stitched [Hos [Hst' [Hh Hw]]]]].
  rewrite Hst in Hst'. inversion Hst'; subst stitched.
  destruct (pair_overlaps_bounds rest first os Hvalid Hos)
    as [[Hlo Hhi] Hmax].
  split; [exact Hw|].
  unfold total_height in *. cbn [fold_right]. split; [lia|].
  intros f [<-|Hin]; [lia|]. specialize (Hmax f Hin). lia.
Qed.

End Rounds.

(** ** Runs on the scripted host *)

Lemma capture_raises_host_or_decoder_witness :
  Forall valid_size (images (self state_grab_throws))
  /\ outcome (capture sim_host poly_hash 50 state_grab_throws)
     = Raise (OSError 7)
  /\ (In (Threw (OSError 7))
         (events (capture sim_host poly_hash 50 state_grab_throws))
      \/ OSError 7 = ValueError).
Proof.
  assert (H1 : Forall valid_size (images (self state_grab_throws)))
    by constructor.
  assert (H2 : outcome (capture sim_host poly_hash 50 state_grab_throws)
               = Raise (OSError 7)) by (vm_compute; reflexivity).
  split; [exact H1|]. split; [exact H2|].
  exact (capture_raises_host_or_decoder
           sim_host poly_hash 50 state_grab_throws (OSError 7) H1 H2).
Defined.

Lemma capture_stop_reason_witness :
  outcome (capture sim_host poly_hash 50 state_two_calls)
  = Ok (Some small1)
  /\ exists more,
       images (self (final (capture sim_host poly_hash 50
                                    state_two_calls)))
       = images (self state_two_calls) ++ more
       /\ ((length (grab_regions
                      (events (capture sim_host poly_hash 50
                                       state_two_calls)))
            = length more
            /\ Z.of_nat (length more) = Z.max 0 50)
           \/ length (grab_regions
                        (events (capture sim_host poly_hash 50
                                         state_two_calls)))
              = (length more + 1)%nat).
Proof.
  assert (H : outcome (capture sim_host poly_hash 50 state_two_calls)
              = Ok (Some small1)) by (vm_compute; reflexivity).
  split; [exact H|].
  exact (capture_stop_reason
           sim_host poly_hash 50 state_two_calls (Some small1) H).
Defined.

Lemma capture_zero_scrolls_witness :
  0 <= 0
  /\ grab_regions (events (capture sim_host poly_hash 0 state_two_calls))
     = []
  /\ page_downs (events (capture sim_host poly_hash 0 state_two_calls))
     = 0%nat.
Proof.
  assert (H : 0 <= 0) by lia.
  split; [exact H|].
  destruct (capture_zero_scrolls sim_host poly_hash 0 state_two_calls H)
    as [Hg [Hp _]].
  split; assumption.
Defined.

Lemma capture_returns_stitched_store_witness :
  Forall valid_size (images (self state_two_frames))
  /\ exists img,
       outcome (capture sim_host poly_hash 50 state_two_frames)
       = Ok (Some img)
       /\ exists first rest,
            images (self (final (capture sim_host poly_hash 50
                                         state_two_frames)))
            = first :: rest
            /\ _stitch_images (first :: rest) = Ok img
            /\ width img = width first
            /\ height img <= total_height (first :: rest)
            /\ forall f, In f (first :: rest) -> height f <= height img.
Proof.
  assert (H1 : Forall valid_size (images (self state_two_frames)))
    by constructor.
  split; [exact H1|].
  eexists. 
  assert (H2 : outcome (capture sim_host poly_hash 50 state_two_frames)
               = Ok (Some ?[img])) by (vm_compute; reflexivity).
  split; [exact H2|].
  exact (capture_returns_stitched_store
           sim_host poly_hash 50 state_two_frames _ H1 H2).
Defined.

Lemma capture_key_sequence_witness :
  outcome (capture sim_host poly_hash 50 state_two_calls)
  = Ok (Some small1)
  /\ exists more,
       images (self (final (capture sim_host poly_hash 50
                                    state_two_calls)))
       = images (self state_two_calls) ++ more
       /\ key_events (events (capture sim_host poly_hash 50
                                      state_two_calls))
          = top_keys ++ page_down_keys (length more).
Proof.
  assert (H : outcome (capture sim_host poly_hash 50 state_two_calls)
              = Ok (Some small1)) by (vm_compute; reflexivity).
  split; [exact H|].
  exact (capture_key_sequence
           sim_host poly_hash 50 state_two_calls (Some small1) H).
Defined.

(** ** [capture_window] *)

Section WindowRuns.

Context {W : Type}.
Variable host : Host W.
Variable desk : Desktop W.

Lemma logged_ret {A} (a : A) : logged (W:=W) (ret a).
Proof. intros s e H. discriminate. Qed.

Lemma logged_emit ev : logged (W:=W) (emit ev).
Proof. intros s e H. discriminate. Qed.

Lemma logged_call {A} ev (op : W -> result A * W) : logged (call ev op).
Proof.
  intros s e. unfold call, outcome, events.
  destruct (op (world s)) as [[a|e'] w]; cbn [fst snd]; intros H;
    [discriminate|].
  inversion H; subst. right. left. reflexivity.
Qed.

Lemma logged_ask {A} (op : W -> result A * W) : logged (ask op).
Proof.
  intros s e. unfold ask, outcome, events.
  destruct (op (world s)) as [[a|e'] w]; cbn [fst snd]; intros H;
    [discriminate|].
  inversion H; subst. left. reflexivity.
Qed.

Lemma logged_bind {A B} (m : M W A) (k : A -> M W B) :
  logged m -> (forall a, logged (k a)) -> logged (bind m k).
Proof.
  intros Hm Hk s e. rewrite run_bind.
  destruct (outcome (m s)) as [a|e'] eqn:Ho; run_proj; intros H.
  - apply in_or_app. right. apply (Hk a _ e H).
  - inversion H; subst. apply (Hm s e Ho).
Qed.

Lemma emits_ask (P : Event -> Prop) {A} (op : W -> result A * W) :
  (forall e, P (Threw e)) -> emits_only P (ask op).
Proof.
  intros Hthrew s. unfold ask, events.
  destruct (op (world s)) as [[a|e] w]; simpl; repeat constructor; auto.
Qed.

Lemma get_window_rect_logged h : logged (get_window_rect host h).
Proof.
  unfold get_window_rect.
  apply logged_bind; [apply logged_call|]. intros [hresult rect].
  apply logged_bind;
    [destruct (negb _); [apply logged_call|apply logged_ret]|].
  intros rect'.
  apply logged_bind; [apply logged_emit|]. intros _. apply logged_ret.
Qed.

Lemma grabs_of_quiet (q evs : list Event) :
  Forall quiet q -> grab_regions (q ++ evs) = grab_regions evs.
Proof.
  intros Hq. rewrite grab_regions_app.
  rewrite (proj2 (quiet_projections q Hq)). reflexivity.
Qed.

Lemma queries_of_quiet (q evs : list Event) :
  Forall quiet q -> rect_queries (q ++ evs) = rect_queries evs.
Proof.
  intros Hq. unfold rect_queries. rewrite flat_map_app.
  fold (rect_queries q). rewrite (proj1 (quiet_projections q Hq)).
  reflexivity.
Qed.

Lemma frombytes_raises (size : Z * Z) (data : list byte) (e : exn) :
  frombytes size data = Raise e -> e = ValueError.
Proof.
  destruct size as [w h]. unfold frombytes.
  destruct (_ || _); [intros H'; inversion H'; reflexivity|].
  destruct (negb _); intros H'; inversion H'; reflexivity.
Qed.

(** How a run of [capture_window] ends: without a grab, returning
    [None] or raising what a call threw; or with one grab, of the
    rectangle just queried, which has something in it. *)
Lemma capture_window_cases (hwnd : option Z) (s : State W) :
  (grab_regions (events (capture_window host desk hwnd s)) = []
   /\ (outcome (capture_window host desk hwnd s) = Ok None
       \/ exists e,
            outcome (capture_window host desk hwnd s) = Raise e
            /\ In (Threw e) (events (capture_window host desk hwnd s))))
  \/ (exists q h rect tail,
         events (capture_window host desk hwnd s)
         = q ++ [RectQuery h rect; Grab rect] ++ tail
         /\ Forall quiet q
         /\ positive_region rect
         /\ ((tail = []
              /\ exists img,
                   outcome (capture_window host desk hwnd s)
                   = Ok (Some img) /\ wf img)
             \/ (tail = []
                 /\ outcome (capture_window host desk hwnd s)
                    = Raise ValueError)
             \/ (exists e,
                    tail = [Threw e]
                    /\ outcome (capture_window host desk hwnd s)
                       = Raise e))).
Proof.
  unfold capture_window. rewrite run_bind.
  set (m1 := match hwnd with
             | None => get_window_at_cursor desk
             | Some given => ret given
             end).
  assert (Hq1 : emits_only quiet m1).
  { subst m1. destruct hwnd; [apply emits_ret|].
    unfold get_window_at_cursor.
    apply emits_bind; [|intros ?]; apply emits_ask; intros ?; exact I. }
  assert (Hl1 : logged m1).
  { subst m1. destruct hwnd; [apply logged_ret|].
    unfold get_window_at_cursor.
    apply logged_bind; [|intros ?]; apply logged_ask. }
  specialize (Hq1 s). specialize (Hl1 s).
  destruct (outcome (m1 s)) as [h|e]; run_proj.
  2: { left. split; [apply quiet_projections, Hq1|].
       right. exists e. split; [reflexivity|]. apply Hl1. reflexivity. }
  clear Hl1. set (s1 := final (m1 s)) in *. rewrite run_bind.
  set (m2 := if h =? 0 then ret true
             else bind (ask (IsWindow desk h))
                       (fun is_window => ret (is_window =? 0))).
  assert (Hq2 : emits_only quiet m2).
  { subst m2. destruct (h =? 0); [apply emits_ret|].
    apply emits_bind; [apply emits_ask; intros ?; exact I|].
    intros ?. apply emits_ret. }
  assert (Hl2 : logged m2).
  { subst m2. destruct (h =? 0); [apply logged_ret|].
    apply logged_bind; [apply logged_ask|]. intros ?. apply logged_ret. }
  specialize (Hq2 s1). specialize (Hl2 s1).
  assert (Hq12 : Forall quiet (events (m1 s) ++ events (m2 s1)))
    by (apply Forall_app; split; assumption).
  destruct (outcome (m2 s1)) as [invalid|e]; run_proj.
  2: { left. split; [apply quiet_projections, Hq12|].
       right. exists e. split; [reflexivity|].
       apply in_or_app. right. apply Hl2. reflexivity. }
  clear Hl2. set (s2 := final (m2 s1)) in *.
  destruct invalid.
  { left. cbn [ret events outcome fst snd]. rewrite app_nil_r.
    split; [apply quiet_projections, Hq12|]. left. reflexivity. }
  rewrite run_bind.
  pose proof (get_window_rect_events host h s2) as Hev.
  pose proof (get_window_rect_logged h s2) as Hl3.
  destruct (outcome (get_window_rect host h s2)) as [rect|e]; run_proj.
  2: { left. rewrite app_assoc.
       split.
       - apply quiet_projections, Forall_app. split; assumption.
       - right. exists e. split; [reflexivity|].
         apply in_or_app. right. apply Hl3. reflexivity. }
  clear Hl3. destruct Hev as [q [Hev Hq3]]. rewrite Hev.
  set (s3 := final (get_window_rect host h s2)). clearbody s3.
  destruct rect as [[[left_ top_] width_] height_]. cbn beta iota.
  destruct ((width_ <=? 0) || (height_ <=? 0)) eqn:Htest.
  { left. cbn [ret events outcome fst snd]. rewrite app_nil_r.
    split; [|left; reflexivity].
    rewrite !grab_regions_app.
    rewrite (proj2 (quiet_projections _ Hq1)).
    rewrite (proj2 (quiet_projections _ Hq2)).
    rewrite (proj2 (quiet_projections _ Hq3)). reflexivity. }
  right. apply orb_false_iff in Htest. destruct Htest as [Hw Hh].
  apply Z.leb_gt in Hw, Hh.
  exists ((events (m1 s) ++ events (m2 s1)) ++ q), h,
    (left_, top_, width_, height_).
  assert (Hq : Forall quiet ((events (m1 s) ++ events (m2 s1)) ++ q))
    by (apply Forall_app; split; assumption).
  destruct s3 as [me w0].
  destruct (grab host (left_, top_, width_, height_) w0)
    as [[shot|e] w1] eqn:Hgrab.
  - rewrite (bind_call_ok _ _ _ _ _ _ _ Hgrab). run_proj.
    destruct (frombytes (shot_width shot, shot_height shot) (rgb shot))
      as [img|e] eqn:Hfrom.
    + rewrite (bind_lift_ok (Ok img) _ _ img eq_refl).
      cbn [ret events outcome fst snd].
      exists []. split; [rewrite <- !app_assoc; reflexivity|].
      split; [exact Hq|]. split; [split; assumption|].
      left. split; [reflexivity|]. exists img. split; [reflexivity|].
      apply (frombytes_wf _ _ _ _ Hfrom).
    + rewrite (bind_lift_raise (Raise e) _ _ e eq_refl).
      cbn [events outcome fst snd].
      exists []. split; [rewrite <- !app_assoc; reflexivity|].
      split; [exact Hq|]. split; [split; assumption|].
      right. left. split; [reflexivity|].
      rewrite (frombytes_raises _ _ _ Hfrom). reflexivity.
  - rewrite (bind_call_raise _ _ _ _ _ _ _ Hgrab).
    cbn [events outcome fst snd].
    exists [Threw e]. split; [rewrite <- !app_assoc; reflexivity|].
    split; [exact Hq|]. split; [split; assumption|].
    right. right. exists e. split; reflexivity.
Qed.

(** X16: [capture_window] grabs the screen at most once, and only a
    rectangle of positive width and height, the one [get_window_rect]
    has just reported. *)
Theorem capture_window_grabs_once_positive (hwnd : option Z)
        (s : State W) :
  one_positive_grab (events (capture_window host desk hwnd s)).
Proof.
  destruct (capture_window_cases hwnd s)
    as [[Hnone _]|[q [h [rect [tail [Hev [Hq [Hpos Htail]]]]]]]].
  - left. exact Hnone.
  - right. exists rect. rewrite Hev.
    rewrite grabs_of_quiet, queries_of_quiet by exact Hq.
    assert (Ht : grab_regions tail = [] /\ rect_queries tail = []).
    { destruct Htail as [[-> _]|[[-> _]|[e [-> _]]]];
        split; reflexivity. }
    destruct Ht as [Hg Hr].
    rewrite grab_regions_app. unfold rect_queries.
    rewrite flat_map_app. fold (rect_queries tail). rewrite Hg, Hr.
    split; [reflexivity|]. split; [reflexivity|exact Hpos].
Qed.

(** X17: when [capture_window] returns [None] it has grabbed nothing;
    when it returns an image, the image is well-formed and comes from
    its one grab, of a rectangle with something in it. *)
Theorem capture_window_image_or_none (hwnd : option Z) (s : State W)
        (r : option Image) :
  outcome (capture_window host desk hwnd s) = Ok r ->
  match r with
  | None => grab_regions (events (capture_window host desk hwnd s)) = []
  | Some img =>
      wf img
      /\ exists region,
           grab_regions (events (capture_window host desk hwnd s))
           = [region]
           /\ positive_region region
  end.
Proof.
  intros Hok.
  destruct (capture_window_cases hwnd s)
    as [[Hnone Hout]|[q [h [rect [tail [Hev [Hq [Hpos Htail]]]]]]]].
  - destruct Hout as [Hout|[e [Hout _]]]; rewrite Hout in Hok;
      [|discriminate].
    inversion Hok; subst. exact Hnone.
  - destruct Htail as [[-> [img [Hout Hwf]]]|[[_ Hout]|[e [_ Hout]]]];
      rewrite Hout in Hok; try discriminate.
    inversion Hok; subst. split; [exact Hwf|].
    exists rect. rewrite Hev, grabs_of_quiet by exact Hq.
    split; [reflexivity|exact Hpos].
Qed.

(** X18: [capture_window] raises only what a call into the host threw,
    or the [ValueError] of the decoder. *)
Theorem capture_window_raises_host_or_decoder (hwnd : option Z)
        (s : State W) (e : exn) :
  outcome (capture_window host desk hwnd s) = Raise e ->
  In (Threw e) (events (capture_window host desk hwnd s))
  \/ e = ValueError.
Proof.
  intros He.
  destruct (capture_window_cases hwnd s)
    as [[_ Hout]|[q [h [rect [tail [Hev [Hq [Hpos Htail]]]]]]]].
  - destruct Hout as [Hout|[e' [Hout Hin]]]; rewrite Hout in He;
      [discriminate|].
    inversion He; subst. left. exact Hin.
  - destruct Htail as [[_ [img [Hout _]]]|[[_ Hout]|[e' [-> Hout]]]];
      rewrite Hout in He; try discriminate; inversion He; subst.
    + right. reflexivity.
    + left. rewrite Hev. apply in_or_app. right.
      right. right. left. reflexivity.
Qed.

End WindowRuns.

Lemma capture_window_image_or_none_witness :
  outcome (capture_window sim_host sim_desk None state_one_shot)
  = Ok (Some small1)
  /\ wf small1
  /\ exists region,
       grab_regions (events (capture_window sim_host sim_desk None
                                            state_one_shot))
       = [region]
       /\ positive_region region.
Proof.
  assert (H : outcome (capture_window sim_host sim_desk None
                                      state_one_shot)
              = Ok (Some small1)) by (vm_compute; reflexivity).
  split; [exact H|].
  exact (capture_window_image_or_none
           sim_host sim_desk None state_one_shot (Some small1) H).
Defined.

Lemma capture_window_raises_host_or_decoder_witness :
  outcome (capture_window sim_host sim_desk None state_no_shot)
  = Raise (OSError 6)
  /\ (In (Threw (OSError 6))
         (events (capture_window sim_host sim_desk None state_no_shot))
      \/ OSError 6 = ValueError).
Proof.
  assert (H : outcome (capture_window sim_host sim_desk None
                                      state_no_shot)
              = Raise (OSError 6)) by (vm_compute; reflexivity).
  split; [exact H|].
  exact (capture_window_raises_host_or_decoder
           sim_host sim_desk None state_no_shot (OSError 6) H).
Defined.

(** ** Frames too short for the locator *)

(** What the stitcher makes of frames of one width, in rows: the first
    frame, then each later frame below its overlap. *)
Lemma stitch_images_rows (first : Image) (rest : list Image) :
  Forall wf (first :: rest) ->
  Forall (fun f => width f = width first) rest ->
  exists overlaps stitched,
    pair_overlaps first rest = Ok overlaps
    /\ _stitch_images (first :: rest) = Ok stitched
    /\ rows stitched = rows first ++ kept_rows rest overlaps.
Proof.
  intros Hall Hwidths.
  destruct (stitch_parts_rows rest first Hall Hwidths)
    as [os [parts [Hos [Hparts [Hwf [Hws Hrows]]]]]].
  assert (Hfirst : wf first) by (inversion Hall; assumption).
  exists os. destruct rest as [|second rest].
  - exists first. cbn [pair_overlaps] in Hos. inversion Hos; subst.
    split; [reflexivity|]. split; [reflexivity|].
    cbn [kept_rows]. rewrite app_nil_r. reflexivity.
  - unfold _stitch_images. rewrite Hparts. cbn [rbind].
    assert (Hallp : Forall wf (first :: parts))
      by (constructor; assumption).
    pose proof (total_height_nonneg _ Hallp) as Hth.
    destruct Hfirst as [[Hfw Hfh] Hfrows].
    rewrite (new_ok _ _ Hfw Hth). cbn [rbind].
    eexists. split; [exact Hos|]. split; [reflexivity|].
    change 0 with (Z.of_nat 0) at 1.
    rewrite paste_parts_rows;
      [|apply wf_build; assumption|exact Hallp| |cbn [height build]; lia].
    2: { constructor; [reflexivity|exact Hws]. }
    destruct (rows_build_length (width first)
                (total_height (first :: parts)) (fun _ _ => black))
      as [Hbl _].
    cbn [firstn app Nat.add]. rewrite skipn_all2 by lia.
    rewrite app_nil_r. cbn [map concat]. rewrite Hrows. reflexivity.
Qed.

Lemma last_cons {A} (xs : list A) :
  forall x d, last (x :: xs) d = last xs x.
Proof.
  induction xs as [|y xs IH]; intros x d; [reflexivity|].
  change (last (x :: y :: xs) d) with (last (y :: xs) d).
  rewrite (IH y d), (IH y x). reflexivity.
Qed.

(** The overlaps of a list cut in two: those up to the cut, then those
    from the last frame before it on. *)
Lemma pair_overlaps_app (xs : list Image) :
  forall prev ys overlaps,
    pair_overlaps prev (xs ++ ys) = Ok overlaps ->
    exists os1 os2,
      pair_overlaps prev xs = Ok os1
      /\ pair_overlaps (last xs prev) ys = Ok os2
      /\ overlaps = os1 ++ os2
      /\ length os1 = length xs.
Proof.
  induction xs as [|x xs IH]; intros prev ys overlaps H.
  - exists [], overlaps. repeat split; [exact H].
  - cbn [app pair_overlaps] in H |- *.
    destruct (_find_overlap prev x) as [o|e]; [|discriminate].
    cbn [rbind] in H |- *.
    destruct (pair_overlaps x (xs ++ ys)) as [os|e] eqn:Hrec;
      [|discriminate].
    cbn [rbind] in H. inversion H; subst overlaps.
    destruct (IH x ys os Hrec) as [os1 [os2 [H1 [H2 [-> Hlen]]]]].
    exists (o :: os1), os2. rewrite H1. cbn [rbind].
    rewrite (last_cons xs x prev).
    repeat split; [exact H2|cbn [length]; rewrite Hlen; reflexivity].
Qed.

Lemma kept_rows_app (xs : list Image) :
  forall os1 ys os2,
    length os1 = length xs ->
    kept_rows (xs ++ ys) (os1 ++ os2)
    = kept_rows xs os1 ++ kept_rows ys os2.
Proof.
  induction xs as [|x xs IH]; intros os1 ys os2 Hlen;
    destruct os1 as [|o os1]; try discriminate; [reflexivity|].
  cbn [app kept_rows]. rewrite IH by (cbn [length] in Hlen; lia).
  rewrite app_assoc. reflexivity.
Qed.

(** A frame that follows a short pair keeps all its rows, wherever the
    pair stands in the list. *)
Lemma short_pair_rows (first : Image) (xs : list Image) (img2 : Image)
      (after : list Image) :
  _find_overlap (last xs first) img2 = Ok 0 ->
  Forall wf (first :: xs ++ img2 :: after) ->
  Forall (fun f => width f = width first) (xs ++ img2 :: after) ->
  exists upper stitched below,
    _stitch_images (first :: xs) = Ok upper
    /\ _stitch_images (first :: xs ++ img2 :: after) = Ok stitched
    /\ rows stitched = rows upper ++ rows img2 ++ below.
Proof.
  intros Hzero Hall Hwidths.
  destruct (stitch_images_rows first (xs ++ img2 :: after) Hall Hwidths)
    as [overlaps [stitched [Hos [Hst Hrows]]]].
  destruct (pair_overlaps_app xs first (img2 :: after) overlaps Hos)
    as [os1 [os2 [H1 [H2 [-> Hlen]]]]].
  assert (Hall1 : Forall wf (first :: xs)).
  { inversion Hall as [|? ? Hf Hrest]; subst. constructor; [exact Hf|].
    apply Forall_app in Hrest. apply Hrest. }
  assert (Hw1 : Forall (fun f => width f = width first) xs).
  { apply Forall_app in Hwidths. apply Hwidths. }
  destruct (stitch_images_rows first xs Hall1 Hw1)
    as [os1' [upper [Hos1 [Hup Hurows]]]].
  rewrite H1 in Hos1. inversion Hos1; subst os1'.
  cbn [pair_overlaps] in H2. rewrite Hzero in H2. cbn [rbind] in H2.
  destruct (pair_overlaps img2 after) as [os3|e]; [|discriminate].
  cbn [rbind] in H2. inversion H2; subst os2.
  exists upper, stitched, (kept_rows after os3).
  split; [exact Hup|]. split; [exact Hst|].
  rewrite Hrows, Hurows, (kept_rows_app xs os1 _ _ Hlen).
  cbn [kept_rows]. change (Z.to_nat 0) with 0%nat. cbn [skipn].
  rewrite <- app_assoc. reflexivity.
Qed.

(** C10: when the smaller of two frames is at most 101 rows high the
    scan range is empty and [_find_overlap] returns 0.  The stitcher
    then takes the second frame in full: wherever the pair stands
    among frames of one width, the stitched image has, below the
    stitch of the frames up to the first of the pair, every row of the
    second, untrimmed; and two such frames alone are stitched to their
    full combined height. *)
Theorem short_frames_never_trimmed (img1 img2 : Image) :
  Z.min (height img1) (height img2) <= 101 ->
  candidates img1 img2 = []
  /\ _find_overlap img1 img2 = Ok 0
  /\ (forall rest,
         stitch_parts img1 (img2 :: rest)
         = rbind (stitch_parts img2 rest)
                 (fun parts => Ok (img2 :: parts)))
  /\ (valid_size img1 -> valid_size img2 ->
      exists stitched,
        _stitch_images [img1; img2] = Ok stitched
        /\ width stitched = width img1
        /\ height stitched = height img1 + height img2)
  /\ (forall before after,
         Forall wf (before ++ img1 :: img2 :: after) ->
         Forall (fun f => width f = width img1)
                (before ++ img2 :: after) ->
         exists upper stitched below,
           _stitch_images (before ++ [img1]) = Ok upper
           /\ _stitch_images (before ++ img1 :: img2 :: after)
              = Ok stitched
           /\ rows stitched = rows upper ++ rows img2 ++ below).
Proof.
  intros Hmin.
  assert (Hc : candidates img1 img2 = []) by (apply candidates_small, Hmin).
  assert (Hf : _find_overlap img1 img2 = Ok 0).
  { unfold _find_overlap. rewrite Hc. reflexivity. }
  split; [exact Hc|]. split; [exact Hf|].
  split; [intros rest; simpl stitch_parts; rewrite Hf; reflexivity|].
  split.
  - intros H1 H2.
    destruct (stitch_two_frames img1 img2 0 H1 H2 Hf)
      as [stitched [Hst [Hh Hw]]].
    exists stitched. split; [exact Hst|]. split; [exact Hw|]. lia.
  - intros before after Hall Hwidths.
    destruct before as [|b bs].
    + apply (short_pair_rows img1 [] img2 after Hf Hall Hwidths).
    + cbn [app] in Hall, Hwidths |- *.
      assert (Hb : width b = width img1)
        by (inversion Hwidths; assumption).
      assert (Hlast : last (bs ++ [img1]) b = img1)
        by apply last_last.
      replace (bs ++ img1 :: img2 :: after)
        with ((bs ++ [img1]) ++ img2 :: after) in *
        by (rewrite <- app_assoc; reflexivity).
      apply (short_pair_rows b (bs ++ [img1]) img2 after).
      * rewrite Hlast. exact Hf.
      * exact Hall.
      * inversion Hwidths as [|? ? _ Hrest]; subst.
        rewrite <- app_assoc. cbn [app].
        apply Forall_app. apply Forall_app in Hrest.
        destruct Hrest as [Hbs Hrest]. split.
        -- revert Hbs. apply Forall_impl. intros f Hfw. congruence.
        -- constructor; [congruence|].
           revert Hrest. apply Forall_impl. intros f Hfw. congruence.
Qed.

Lemma short_frames_never_trimmed_witness :
  Z.min (height (view 100 101 0)) (height (view 100 300 60)) <= 101
  /\ _find_overlap (view 100 101 0) (view 100 300 60) = Ok 0
  /\ (exists stitched,
         _stitch_images [view 100 101 0; view 100 300 60] = Ok stitched
         /\ height stitched = 101 + 300)
  /\ exists upper stitched below,
       _stitch_images ([] ++ [view 100 101 0]) = Ok upper
       /\ _stitch_images ([] ++ [view 100 101 0; view 100 300 60])
          = Ok stitched
       /\ rows stitched = rows upper ++ rows (view 100 300 60) ++ below.
Proof.
  assert (H : Z.min (height (view 100 101 0)) (height (view 100 300 60))
              <= 101) by (simpl; lia).
  assert (Hwf : forall h top, 0 <= h -> wf (view 100 h top))
    by (intros h top Hh; apply wf_view; lia).
  split; [exact H|].
  destruct (short_frames_never_trimmed _ _ H)
    as [_ [Hzero [_ [Hsize Hrows]]]].
  split; [exact Hzero|]. split.
  - destruct (Hsize (proj1 (Hwf 101 0 ltac:(lia)))
                    (proj1 (Hwf 300 60 ltac:(lia))))
      as [stitched [Hst [_ Hh]]].
    exists stitched. split; [exact Hst|exact Hh].
  - apply (Hrows [] []).
    + repeat constructor; apply Hwf; lia.
    + repeat constructor.
Defined.

(** ** The specification's concrete scenario *)



